(** * Plant Identification & Care Guide: the view controller of [src/App.tsx]

    A shallow embedding of the single React component [App]: the static
    [plantDatabase], the file-name classifier inlined in [identifyPlant],
    the camera handlers and the upload handler, together with the event
    loop that resumes them ([await], [FileReader], [fetch], [setTimeout]). *)

From Stdlib Require Import Ascii String.
From stdpp Require Import base option list strings gmap.

Local Open Scope string_scope.

(** ** Strings as the handlers use them *)

Module JsString.

(** [s.startsWith(t)], on the sequence of code units. *)
Fixpoint startsWith (s t : string) {struct t} : bool :=
  match t, s with
  | EmptyString, _ => true
  | String b t', String a s' => if Ascii.eqb a b then startsWith s' t' else false
  | String _ _, EmptyString => false
  end.

(** [s.includes(t)]: [t] occurs in [s] at some position. *)
Fixpoint includes (s t : string) : bool :=
  if startsWith s t then true
  else match s with
       | EmptyString => false
       | String _ s' => includes s' t
       end.

(** The declarative reading of "[s] contains [t]". *)
Definition contains (s t : string) : Prop :=
  exists pre post : string, s = pre +:+ t +:+ post.

(** [String.prototype.toLowerCase] restricted to file names written in
    ASCII: the letters [A]-[Z] move down by 32, every other code unit
    stays.  The handlers are stated over an arbitrary lower-casing
    function; this one instantiates them on concrete names. *)
Definition lowerAscii (c : ascii) : ascii :=
  let n := nat_of_ascii c in
  if (65 <=? n)%nat && (n <=? 90)%nat then ascii_of_nat (n + 32) else c.

Fixpoint asciiLowerCase (s : string) : string :=
  match s with
  | EmptyString => EmptyString
  | String c s' => String (lowerAscii c) (asciiLowerCase s')
  end.

End JsString.

Import JsString.

(** ** The plant catalog (App.tsx, lines 4-103) *)

Record PlantInfo : Type := mkPlantInfo {
  name : string;
  watering : string;
  light : string;
  diseases : list string;
  benefits : list string;
  isPoisonous : bool;
  treatment : string
}.

Module Catalog.

Definition mustard : PlantInfo := {|
  name := "Mustard Plant (Brassica juncea)";
  watering := "Keep soil consistently moist but not waterlogged. Water when top inch of soil feels dry.";
  light := "Full sun to partial shade. Requires 6-8 hours of direct sunlight daily for optimal growth.";
  diseases := ["Downy mildew"; "White rust"; "Alternaria leaf spot"; "Bacterial leaf spot"];
  benefits := ["Rich in vitamins A, C, and K"; "High in antioxidants";
               "Anti-inflammatory properties"; "Supports digestive health";
               "Good source of fiber"];
  isPoisonous := false;
  treatment := "For fungal diseases, remove infected leaves and improve air circulation. Apply copper-based fungicide for severe cases. Ensure proper spacing between plants to prevent disease spread."
|}.

Definition peaceLily : PlantInfo := {|
  name := "Peace Lily (Spathiphyllum)";
  watering := "Keep soil moist but not waterlogged. Water when top inch of soil is dry.";
  light := "Thrives in medium to low indirect light. Avoid direct sunlight.";
  diseases := ["Leaf spot"; "Root rot"; "Powdery mildew"];
  benefits := ["Air purifying qualities"; "Removes toxins like benzene and formaldehyde";
               "Increases humidity"; "Reduces stress"];
  isPoisonous := true;
  treatment := "For leaf spot, remove affected leaves and improve air circulation. For root rot, reduce watering and repot if necessary."
|}.

Definition rose : PlantInfo := {|
  name := "Rose (Rosa)";
  watering := "Water deeply once a week, more often in hot weather.";
  light := "Full sun, at least 6 hours of direct sunlight daily.";
  diseases := ["Black spot"; "Powdery mildew"; "Rust"];
  benefits := ["Beautiful flowers"; "Symbol of love and beauty";
               "Can be used in herbal remedies"];
  isPoisonous := false;
  treatment := "Prune affected areas and apply fungicides as needed."
|}.

Definition tulip : PlantInfo := {|
  name := "Tulip (Tulipa)";
  watering := "Water when the top inch of soil is dry, especially during blooming.";
  light := "Full sun to partial shade.";
  diseases := ["Botrytis blight"; "Tulip fire"];
  benefits := ["Bright and colorful flowers"; "Easy to grow"; "Attracts pollinators"];
  isPoisonous := true;
  treatment := "Remove affected plants and avoid overwatering."
|}.

Definition fern : PlantInfo := {|
  name := "Fern (Pteridophyta)";
  watering := "Keep soil consistently moist but not soggy.";
  light := "Prefers indirect light; avoid direct sunlight.";
  diseases := ["Leaf spot"; "Root rot"];
  benefits := ["Air purifying qualities"; "Adds greenery to indoor spaces"; "Low maintenance"];
  isPoisonous := false;
  treatment := "Remove dead fronds and ensure proper drainage."
|}.

Definition cactus : PlantInfo := {|
  name := "Cactus (Cactaceae)";
  watering := "Water sparingly; allow soil to dry out completely between waterings.";
  light := "Full sun; requires bright light.";
  diseases := ["Cactus rot"; "Mealybugs"];
  benefits := ["Low water requirements"; "Unique appearance"; "Can thrive in dry conditions"];
  isPoisonous := false;
  treatment := "Remove affected areas and ensure proper drainage."
|}.

End Catalog.

(** [const plantDatabase: Record<string, PlantInfo>]; [plantDatabase[k]] is
    [plantDatabase !! k], with [None] for JavaScript's [undefined].  The
    map holds the object's own properties; the handlers look it up only at
    the keys [plantType] produces, none of which is inherited from
    [Object.prototype]. *)
Definition plantDatabase : gmap string PlantInfo :=
  list_to_map
    [ ("mustard", Catalog.mustard);
      ("peaceLily", Catalog.peaceLily);
      ("rose", Catalog.rose);
      ("tulip", Catalog.tulip);
      ("fern", Catalog.fern);
      ("cactus", Catalog.cactus) ].

(** ** The file-name classifier (App.tsx, lines 167-183) *)

(** The [if]/[else if] chain over the lower-cased file name. *)
Definition plantType (fileName : string) : string :=
  if includes fileName "mustard" then "mustard"
  else if includes fileName "peace" || includes fileName "lily" then "peaceLily"
  else if includes fileName "rose" then "rose"
  else if includes fileName "tulip" then "tulip"
  else if includes fileName "fern" then "fern"
  else if includes fileName "cactus" then "cactus"
  else "unknown".

(** ** Component state and its surroundings (App.tsx, lines 105-112) *)

(** The five [useState] cells. *)
Record SessionState : Type := mkSession {
  selectedImage : option string;
  loading : bool;
  isStreaming : bool;
  plantInfo : option PlantInfo;
  error : option string
}.

(** A [MediaStream] is known by the identifiers of its tracks. *)
Record MediaStream : Type := mkStream { getTracks : list nat }.

Record HTMLVideoElement : Type := mkVideo { srcObject : option MediaStream }.

Record File : Type := mkFile { file_name : string; file_type : string }.

(** Everything a handler can read or write: the state cells, the value of
    [videoRef.current] ([None] for [null]), the tracks the media subsystem
    holds open, what was shown with [alert] and [console.error], and the
    asynchronous work that has been started and not yet resumed.  [timers]
    lists the identifications suspended in the 1500 ms delay, oldest first,
    each with the [plantType] it computed before suspending. *)
Record World : Type := mkWorld {
  state : SessionState;
  videoRef : option HTMLVideoElement;
  liveTracks : list nat;
  alerts : list string;
  console : list (string * string);
  cameraRequests : nat;
  fileReads : nat;
  fetches : nat;
  timers : list string
}.

Definition with_state (f : SessionState -> SessionState) (w : World) : World :=
  mkWorld (f (state w)) (videoRef w) (liveTracks w) (alerts w) (console w)
          (cameraRequests w) (fileReads w) (fetches w) (timers w).

Definition with_videoRef (v : option HTMLVideoElement) (w : World) : World :=
  mkWorld (state w) v (liveTracks w) (alerts w) (console w)
          (cameraRequests w) (fileReads w) (fetches w) (timers w).

Definition with_liveTracks (l : list nat) (w : World) : World :=
  mkWorld (state w) (videoRef w) l (alerts w) (console w)
          (cameraRequests w) (fileReads w) (fetches w) (timers w).

Definition with_alerts (l : list string) (w : World) : World :=
  mkWorld (state w) (videoRef w) (liveTracks w) l (console w)
          (cameraRequests w) (fileReads w) (fetches w) (timers w).

Definition with_console (l : list (string * string)) (w : World) : World :=
  mkWorld (state w) (videoRef w) (liveTracks w) (alerts w) l
          (cameraRequests w) (fileReads w) (fetches w) (timers w).

Definition with_cameraRequests (n : nat) (w : World) : World :=
  mkWorld (state w) (videoRef w) (liveTracks w) (alerts w) (console w)
          n (fileReads w) (fetches w) (timers w).

Definition with_fileReads (n : nat) (w : World) : World :=
  mkWorld (state w) (videoRef w) (liveTracks w) (alerts w) (console w)
          (cameraRequests w) n (fetches w) (timers w).

Definition with_fetches (n : nat) (w : World) : World :=
  mkWorld (state w) (videoRef w) (liveTracks w) (alerts w) (console w)
          (cameraRequests w) (fileReads w) n (timers w).

Definition with_timers (l : list string) (w : World) : World :=
  mkWorld (state w) (videoRef w) (liveTracks w) (alerts w) (console w)
          (cameraRequests w) (fileReads w) (fetches w) l.

(** The component as first rendered. *)
Definition initialState : SessionState :=
  mkSession None false false None None.

Definition initialWorld : World :=
  mkWorld initialState None [] [] [] 0 0 0 [].

(** ** Handlers are programs over the world that may throw *)

Inductive outcome (A : Type) : Type :=
| Returned (a : A)
| Thrown (e : string).
Arguments Returned {A} a.
Arguments Thrown {A} e.

Definition Js (A : Type) : Type := World -> outcome A * World.

Module JsMonad.

Definition ret {A} (a : A) : Js A := fun w => (Returned a, w).

Definition bind {A B} (m : Js A) (k : A -> Js B) : Js B :=
  fun w => match m w with
           | (Returned a, w') => k a w'
           | (Thrown e, w') => (Thrown e, w')
           end.

Definition throw {A} (e : string) : Js A := fun w => (Thrown e, w).

Definition get : Js World := fun w => (Returned w, w).

Definition modify (f : World -> World) : Js unit := fun w => (Returned tt, f w).

(** [try { body } catch (err) { handler }] *)
Definition try_catch {A} (body : Js A) (handler : string -> Js A) : Js A :=
  fun w => match body w with
           | (Returned a, w') => (Returned a, w')
           | (Thrown e, w') => handler e w'
           end.

(** [try { body } finally { fin }] *)
Definition try_finally {A} (body : Js A) (fin : Js unit) : Js A :=
  fun w => match body w with
           | (r, w') => match fin w' with
                        | (Returned _, w'') => (r, w'')
                        | (Thrown e, w'') => (Thrown e, w'')
                        end
           end.

(** The world a handler leaves behind, and how it completed. *)
Definition exec {A} (m : Js A) (w : World) : World := snd (m w).
Definition completion {A} (m : Js A) (w : World) : outcome A := fst (m w).

End JsMonad.

Import JsMonad.

Declare Scope js_scope.
Delimit Scope js_scope with js.
Notation "x <- m ;; k" := (bind m (fun x => k))
  (at level 100, m at next level, right associativity) : js_scope.
Notation "m ;; k" := (bind m (fun _ => k))
  (at level 100, right associativity) : js_scope.
Local Open Scope js_scope.

(** *** The state setters returned by [useState] *)

Definition setSelectedImage (v : option string) : Js unit :=
  modify (with_state (fun s =>
    mkSession v (loading s) (isStreaming s) (plantInfo s) (error s))).

Definition setLoading (b : bool) : Js unit :=
  modify (with_state (fun s =>
    mkSession (selectedImage s) b (isStreaming s) (plantInfo s) (error s))).

Definition setIsStreaming (b : bool) : Js unit :=
  modify (with_state (fun s =>
    mkSession (selectedImage s) (loading s) b (plantInfo s) (error s))).

Definition setPlantInfo (p : option PlantInfo) : Js unit :=
  modify (with_state (fun s =>
    mkSession (selectedImage s) (loading s) (isStreaming s) p (error s))).

Definition setError (e : option string) : Js unit :=
  modify (with_state (fun s =>
    mkSession (selectedImage s) (loading s) (isStreaming s) (plantInfo s) e)).

(** *** Host operations *)

(** [alert(msg)] *)
Definition alert (msg : string) : Js unit :=
  modify (fun w => with_alerts (alerts w ++ [msg])%list w).

(** [console.error(msg, err)] *)
Definition console_error (msg err : string) : Js unit :=
  modify (fun w => with_console (console w ++ [(msg, err)])%list w).

(** [track.stop()]: the media subsystem lets go of the track. *)
Definition stopTrack (t : nat) : Js unit :=
  modify (fun w => with_liveTracks (filter (fun t' => t' <> t) (liveTracks w)) w).

(** [tracks.forEach(track => track.stop())] *)
Fixpoint forEach_stop (tracks : list nat) : Js unit :=
  match tracks with
  | [] => ret tt
  | t :: rest => stopTrack t ;; forEach_stop rest
  end.

(** [videoRef.current.srcObject = v], when [videoRef.current] is an element. *)
Definition set_srcObject (v : option MediaStream) : Js unit :=
  modify (fun w => match videoRef w with
                   | Some _ => with_videoRef (Some (mkVideo v)) w
                   | None => w
                   end).

(** The value an [await] resumes with: the promise was fulfilled with a
    value or rejected with a reason, and a rejection is thrown at the [await]. *)
Definition awaited {A} (settled : A + string) : Js A :=
  match settled with
  | inl a => ret a
  | inr reason => throw reason
  end.

(** ** The handlers (App.tsx, lines 114-212) *)

Definition unidentifiedMessage : string :=
  "Unable to identify plant. Please ensure the image is clear and try again.".

Definition pipelineMessage : string :=
  "An error occurred while identifying the plant. Please try again.".

Definition cameraMessage : string :=
  "Unable to access camera. Please ensure you've granted camera permissions.".

Section Handlers.

(** [String.prototype.toLowerCase], supplied by the host. *)
Variable toLowerCase : string -> string.

(** What [identifyPlant] computes from [file.name] before it suspends:
    the spec's [identify]. *)
Definition identify (fileName : string) : string :=
  plantType (toLowerCase fileName).

(** [startCamera] runs to its [await] by asking the host for a stream. *)
Definition startCamera : Js unit :=
  modify (fun w => with_cameraRequests (S (cameraRequests w)) w).

(** [startCamera] from its [await] on, resumed with the settled promise
    of [getUserMedia]: a rejection is thrown at the [await], inside the
    [try]. *)
Definition startCamera_resume (settled : MediaStream + string) : Js unit :=
  try_catch
    (stream <- awaited settled ;;
     w <- get ;;
     match videoRef w with
     | Some _ => set_srcObject (Some stream) ;; setIsStreaming true
     | None => ret tt
     end)
    (fun err =>
       console_error "Error accessing camera:" err ;;
       alert cameraMessage).

Definition stopCamera : Js unit :=
  w <- get ;;
  match videoRef w with
  | Some video =>
      match srcObject video with
      | Some stream =>
          forEach_stop (getTracks stream) ;;
          set_srcObject None ;;
          setIsStreaming false
      | None => ret tt
      end
  | None => ret tt
  end.

(** [identifyPlant] up to [await new Promise(... setTimeout(resolve, 1500))].
    Nothing before the [await] can throw, so the enclosing [try] is
    written out in [identifyPlant_resume] only. *)
Definition identifyPlant (file : File) : Js unit :=
  setLoading true ;;
  setError None ;;
  let fileName := toLowerCase (file_name file) in
  let plantType := plantType fileName in
  modify (fun w => with_timers (timers w ++ [plantType])%list w).

(** [identifyPlant] once the timer has fired. *)
Definition identifyPlant_resume (plantType : string) : Js unit :=
  try_finally
    (try_catch
       (if String.eqb plantType "unknown" then
          setError (Some unidentifiedMessage) ;;
          setPlantInfo None
        else
          setPlantInfo (plantDatabase !! plantType))
       (fun _ =>
          setError (Some pipelineMessage) ;;
          setPlantInfo None))
    (setLoading false).

(** [captureImage].  [frame] is what the canvas yields: [None] when
    [getContext('2d')] is [null], otherwise the data URL of the frame.
    The [fetch] of that URL is left pending. *)
Definition captureImage (frame : option string) : Js unit :=
  w <- get ;;
  match videoRef w with
  | Some _ =>
      match frame with
      | Some imageDataUrl =>
          setSelectedImage (Some imageDataUrl) ;;
          stopCamera ;;
          modify (fun w => with_fetches (S (fetches w)) w)
      | None => ret tt
      end
  | None => ret tt
  end.

(** The continuation of that [fetch]: the blob becomes "capture.jpg". *)
Definition captureImage_resume : Js unit :=
  let file := mkFile "capture.jpg" "image/jpeg" in
  identifyPlant file.

(** [handleImageUpload]; [files] is [event.target.files], [None] for [null]. *)
Definition handleImageUpload (files : option (list File)) : Js unit :=
  match files ≫= head with
  | Some file =>
      modify (fun w => with_fileReads (S (fileReads w)) w) ;;
      identifyPlant file
  | None => ret tt
  end.

(** [reader.onloadend]; [result] is [reader.result]. *)
Definition onloadend (result : option string) : Js unit :=
  setSelectedImage result.

(** ** The event loop *)

Inductive Event : Type :=
| ChangeFile (files : option (list File))     (* the file input changed *)
| LoadEnd (result : option string)            (* a FileReader finished *)
| ClickScan (frame : option string)           (* the Scan Plant / Capture button *)
| CameraSettled (settled : MediaStream + string) (* getUserMedia settled *)
| ClickClose                                  (* the Close Camera button *)
| FetchSettled (ok : bool)                    (* the fetch of a captured frame *)
| TimerFired.                                 (* the oldest 1500 ms timer *)

(** After a handler has run React renders again: the [video] element, and
    with it [videoRef.current], exists exactly while [isStreaming] holds
    (App.tsx, lines 247-262). *)
Definition commit (w : World) : World :=
  if isStreaming (state w)
  then with_videoRef (Some (default (mkVideo None) (videoRef w))) w
  else with_videoRef None w.

(** What an event runs, or [None] when it cannot occur in [w]. *)
Definition dispatch (e : Event) (w : World) : option World :=
  match e with
  | ChangeFile files => Some (exec (handleImageUpload files) w)
  | LoadEnd result =>
      match fileReads w with
      | S n => Some (exec (onloadend result) (with_fileReads n w))
      | O => None
      end
  | ClickScan frame =>
      Some (exec (if isStreaming (state w) then captureImage frame else startCamera) w)
  | CameraSettled settled =>
      match cameraRequests w with
      | S n =>
          let granted := match settled with
                         | inl stream => (getTracks stream ++ liveTracks w)%list
                         | inr _ => liveTracks w
                         end in
          Some (exec (startCamera_resume settled)
                     (with_liveTracks granted (with_cameraRequests n w)))
      | O => None
      end
  | ClickClose =>
      if isStreaming (state w) then Some (exec stopCamera w) else None
  | FetchSettled ok =>
      match fetches w with
      | S n => Some (exec (if ok then captureImage_resume else ret tt) (with_fetches n w))
      | O => None
      end
  | TimerFired =>
      match timers w with
      | plantType :: rest =>
          Some (exec (identifyPlant_resume plantType) (with_timers rest w))
      | [] => None
      end
  end.

Definition step (e : Event) (w : World) : option World :=
  commit <$> dispatch e w.

Fixpoint run (es : list Event) (w : World) : option World :=
  match es with
  | [] => Some w
  | e :: rest => step e w ≫= run rest
  end.

Inductive reachable : World -> Prop :=
| reachable_initial : reachable initialWorld
| reachable_step e w w' : reachable w -> step e w = Some w' -> reachable w'.

End Handlers.


(** ** The properties, as they are stated *)

(** *** Section 4.2: the ordered rule list *)

(** One rule: the substrings that trigger it and the key it yields. *)
Definition Rule : Type := list string * string.

Definition rules : list Rule :=
  [ (["mustard"], "mustard");
    (["peace"; "lily"], "peaceLily");
    (["rose"], "rose");
    (["tulip"], "tulip");
    (["fern"], "fern");
    (["cactus"], "cactus") ].

(** A rule matches a name that contains one of its substrings. *)
Definition matches (s : string) (r : Rule) : Prop :=
  exists kw, In kw (fst r) /\ contains s kw.

(** "First match wins", and [unknown] when the list is exhausted. *)
Inductive FirstMatch (s : string) : list Rule -> string -> Prop :=
| first_none : FirstMatch s [] "unknown"
| first_here r rest : matches s r -> FirstMatch s (r :: rest) (snd r)
| first_later r rest key :
    ~ matches s r -> FirstMatch s rest key -> FirstMatch s (r :: rest) key.

(** The name triggers none of the six rules. *)
Definition no_keyword (s : string) : Prop :=
  forall r, In r rules -> ~ matches s r.

(** *** Sections 3 and 8: what the session shows *)

Definition isSet {A} (o : option A) : bool :=
  match o with Some _ => true | None => false end.

(** How many of loading / error / result are on. *)
Definition shown (s : SessionState) : nat :=
  Nat.b2n (loading s) + Nat.b2n (isSet (error s)) + Nat.b2n (isSet (plantInfo s)).

Definition MutualExclusion (s : SessionState) : Prop :=
  shown s <= 1 /\ ~ (isSet (plantInfo s) = true /\ isSet (error s) = true).

(** The state machine's [Failed(msg)]. *)
Definition Failed (msg : string) (s : SessionState) : Prop :=
  error s = Some msg /\ plantInfo s = None /\ loading s = false.

(** The state machine's [Resolved(profile)] as [identifyPlant_resume]
    leaves it. *)
Definition Resolved (p : PlantInfo) (s : SessionState) : Prop :=
  plantInfo s = Some p /\ loading s = false.

(** What an identification request is said to do when it starts. *)
Definition clears_result_and_error (s : SessionState) : Prop :=
  plantInfo s = None /\ error s = None.

(** Everything but the three cells [loading], [error] and [plantInfo],
    and the timer queue that carries the suspended request, is the same. *)
Definition same_but_identification (w w' : World) : Prop :=
  selectedImage (state w') = selectedImage (state w) /\
  isStreaming (state w') = isStreaming (state w) /\
  videoRef w' = videoRef w /\
  liveTracks w' = liveTracks w /\
  alerts w' = alerts w /\
  console w' = console w /\
  cameraRequests w' = cameraRequests w /\
  fileReads w' = fileReads w /\
  fetches w' = fetches w.

(** No stream is attached to the video element (or there is no element). *)
Definition noActiveStream (w : World) : Prop :=
  videoRef w = None \/ videoRef w = Some (mkVideo None).

(** *** Runs in which identifications do not overlap *)

Definition isTimerFired (e : Event) : bool :=
  match e with TimerFired => true | _ => false end.

(** How many timers fire along a run. *)
Definition timersFired (es : list Event) : nat :=
  length (List.filter isTimerFired es).

(** Worlds reached while at most one identification is suspended at any
    time: every request is resumed before the next one starts. *)
Inductive reachable_one_at_a_time (toLowerCase : string -> string) : World -> Prop :=
| one_initial : reachable_one_at_a_time toLowerCase initialWorld
| one_step e w w' :
    reachable_one_at_a_time toLowerCase w ->
    step toLowerCase e w = Some w' ->
    length (timers w') <= 1 ->
    reachable_one_at_a_time toLowerCase w'.

(** [no_keyword], computed. *)
Definition no_keywordb (s : string) : bool :=
  forallb (fun r : Rule => negb (existsb (includes s) (fst r))) rules.

(** What [forEach_stop] leaves of the live tracks. *)
Fixpoint stopped (tracks live : list nat) : list nat :=
  match tracks with
  | [] => live
  | t :: rest => stopped rest (filter (fun t' => t' <> t) live)
  end.

(** The part of the world an identification works on. *)
Definition identification (w : World) : bool * option string * option PlantInfo * list string :=
  (loading (state w), error (state w), plantInfo (state w), timers w).

(** The event makes [identifyPlant] start on [file]: an upload whose first
    file it is, or the arrival of a captured frame. *)
Definition requests (e : Event) (file : File) : Prop :=
  match e with
  | ChangeFile (Some (first :: _)) => first = file
  | FetchSettled true => file = mkFile "capture.jpg" "image/jpeg"
  | _ => False
  end.

(** *** Concrete files and runs used below *)

Definition rose_jpg : File := mkFile "my_rose.jpg" "image/jpeg".
Definition unknown_png : File := mkFile "unknown_plant.png" "image/png".

(** A rose is identified, then the next upload starts. *)
Definition run_result_then_upload : list Event :=
  [ ChangeFile (Some [rose_jpg]); TimerFired; ChangeFile (Some [unknown_png]) ].

(** Two uploads overlap: both start before either timer fires. *)
Definition run_overlapping : list Event :=
  [ ChangeFile (Some [unknown_png]); ChangeFile (Some [rose_jpg]); TimerFired; TimerFired ].

(** The world in which the rose profile is on display. *)
Definition world_showing_rose : World :=
  mkWorld (mkSession None false false (Some Catalog.rose) None) None [] [] [] 0 1 0 [].

(** The world after "unknown_plant.png" was uploaded and its timer fired. *)
Definition world_failed : World :=
  mkWorld (mkSession None false false None (Some unidentifiedMessage)) None [] [] [] 0 1 0 [].

(** The world after "Scan Plant" was clicked on the first render and the
    camera was refused. *)
Definition world_camera_denied : World :=
  mkWorld initialState None [] [cameraMessage]
          [("Error accessing camera:", "NotAllowedError")] 0 0 0 [].

(** ** What is rendered (App.tsx, lines 214-353) *)

(** JavaScript truthiness of a [string | null] cell: [null] and the empty
    string are falsy. *)
Definition truthy (o : option string) : bool :=
  match o with
  | Some (String _ _) => true
  | _ => false
  end.

(** The profile block drawn for [plantInfo]; the list items carry their
    [key={index}]. *)
Record ProfilePanel : Type := mkProfilePanel {
  title : string;
  wateringNeeds : string;
  lightRequirements : string;
  commonDiseases : list (nat * string);
  benefitItems : list (nat * string);
  treatmentAndSafety : string;
  poisonWarning : bool
}.

(** The conditional parts of the page. *)
Record View : Type := mkView {
  scanLabel : string;
  cameraPanel : bool;
  previewImage : option string;
  loadingNotice : bool;
  errorNotice : option string;
  profilePanel : option ProfilePanel
}.

Definition renderProfile (p : PlantInfo) : ProfilePanel :=
  mkProfilePanel (name p) (watering p) (light p)
                 (imap (fun index disease => (index, disease)) (diseases p))
                 (imap (fun index benefit => (index, benefit)) (benefits p))
                 (treatment p) (isPoisonous p).

Definition render (s : SessionState) : View :=
  mkView (if isStreaming s then "Capture" else "Scan Plant")
         (isStreaming s)
         (if truthy (selectedImage s) && negb (isStreaming s) then selectedImage s else None)
         (loading s)
         (if truthy (error s) then error s else None)
         (renderProfile <$> plantInfo s).

(** The six keys of the catalog. *)
Definition catalogKeys : list string :=
  ["mustard"; "peaceLily"; "rose"; "tulip"; "fern"; "cactus"].

(** A world in which the camera is streaming: the video element holds a
    stream of two tracks, and a third track is open elsewhere. *)
Definition world_streaming : World :=
  mkWorld (mkSession None false true None None)
          (Some (mkVideo (Some (mkStream [1; 2])))) [1; 2; 7] [] [] 0 0 0 [].

(** A world whose video element is mounted with nothing attached, while a
    camera request is pending. *)
Definition world_video_ready : World :=
  mkWorld (mkSession None false true None None)
          (Some (mkVideo None)) [7] [] [] 1 0 0 [].

(** A world in which the fetch of a captured frame is pending. *)
Definition world_captured : World :=
  mkWorld (mkSession (Some "data:image/jpeg;base64,") false false None None)
          None [] [] [] 0 0 1 [].

(** The world after the scan button was clicked on the first render and a
    stream of two tracks was granted. *)
Definition world_leaking : World :=
  mkWorld initialState None [1; 2] [] [] 0 0 0 [].

(** The world while "unknown_plant.png" is being identified. *)
Definition world_identifying : World :=
  mkWorld (mkSession None true false None None) None [] [] [] 0 1 0 ["unknown"].

(** The substrings the classifier looks for. *)
Definition keywords : list string :=
  ["mustard"; "peace"; "lily"; "rose"; "tulip"; "fern"; "cactus"].

(** The world of [world_showing_rose] once "unknown_plant.png" has been
    uploaded and its file read has ended, with its timer still running. *)
Definition world_rose_still_shown : World :=
  mkWorld (mkSession (Some "data:image/png;base64,") true false (Some Catalog.rose) None)
          None [] [] [] 0 1 0 ["unknown"].

(** * Proofs *)

(** ** [includes] decides containment *)

Lemma startsWith_spec (s t : string) :
  startsWith s t = true <-> exists post, s = t +:+ post.
Proof.
  revert s; induction t as [|b t IH]; intros s.
  - split; [intros _; exists s; reflexivity | reflexivity].
  - destruct s as [|a s]; simpl.
    + split; [discriminate | intros [post H]; discriminate].
    + destruct (Ascii.eqb_spec a b) as [->|Hne].
      * rewrite IH. split; intros [post H]; exists post.
        -- simpl. now rewrite H.
        -- simpl in H. now injection H.
      * split; [discriminate |].
        intros [post H]. simpl in H. injection H as Hab _. contradiction.
Qed.

Lemma includes_unfold (s t : string) :
  includes s t =
  if startsWith s t then true
  else match s with
       | EmptyString => false
       | String _ s' => includes s' t
       end.
Proof. destruct s; reflexivity. Qed.

Lemma includes_spec (s t : string) : includes s t = true <-> contains s t.
Proof.
  split.
  - induction s as [|a s IH]; rewrite includes_unfold;
      destruct (startsWith _ t) eqn:Hp.
    + intros _. apply startsWith_spec in Hp as [post ->]. now exists EmptyString, post.
    + discriminate.
    + intros _. apply startsWith_spec in Hp as [post ->]. now exists EmptyString, post.
    + intros H. destruct (IH H) as (pre & post & ->).
      now exists (String a pre), post.
  - intros (pre & post & ->).
    induction pre as [|a pre IH]; rewrite includes_unfold.
    + replace (startsWith _ t) with true; [reflexivity|].
      symmetry. apply startsWith_spec. now exists post.
    + destruct (startsWith _ t); [reflexivity | exact IH].
Qed.

Lemma includes_false (s t : string) : includes s t = false <-> ~ contains s t.
Proof.
  rewrite <- includes_spec. destruct (includes s t); split; intros H; try easy.
Qed.

(** A rule with a single substring. *)
Lemma matches_one (s kw key : string) :
  matches s ([kw], key) <-> includes s kw = true.
Proof.
  rewrite includes_spec. unfold matches; simpl. split.
  - intros (k & [<-|[]] & H). exact H.
  - intros H. exists kw. auto.
Qed.

(** A rule with two substrings. *)
Lemma matches_two (s kw1 kw2 key : string) :
  matches s ([kw1; kw2], key) <-> includes s kw1 || includes s kw2 = true.
Proof.
  rewrite orb_true_iff, !includes_spec. unfold matches; simpl. split.
  - intros (k & [<-|[<-|[]]] & H); auto.
  - intros [H|H]; [exists kw1 | exists kw2]; auto.
Qed.

Lemma not_matches_one (s kw key : string) :
  includes s kw = false -> ~ matches s ([kw], key).
Proof. rewrite matches_one. congruence. Qed.

Lemma not_matches_two (s kw1 kw2 key : string) :
  includes s kw1 || includes s kw2 = false -> ~ matches s ([kw1; kw2], key).
Proof. rewrite matches_two. congruence. Qed.

(** The chain of [plantType] walks the rule list. *)
Lemma plantType_first_match (s : string) : FirstMatch s rules (plantType s).
Proof.
  unfold plantType, rules.
  destruct (includes s "mustard") eqn:H1.
  { apply (first_here s (["mustard"], "mustard")). now apply matches_one. }
  apply first_later; [now apply not_matches_one|].
  destruct (includes s "peace" || includes s "lily") eqn:H2.
  { apply (first_here s (["peace"; "lily"], "peaceLily")). now apply matches_two. }
  apply first_later; [now apply not_matches_two|].
  destruct (includes s "rose") eqn:H3.
  { apply (first_here s (["rose"], "rose")). now apply matches_one. }
  apply first_later; [now apply not_matches_one|].
  destruct (includes s "tulip") eqn:H4.
  { apply (first_here s (["tulip"], "tulip")). now apply matches_one. }
  apply first_later; [now apply not_matches_one|].
  destruct (includes s "fern") eqn:H5.
  { apply (first_here s (["fern"], "fern")). now apply matches_one. }
  apply first_later; [now apply not_matches_one|].
  destruct (includes s "cactus") eqn:H6.
  { apply (first_here s (["cactus"], "cactus")). now apply matches_one. }
  apply first_later; [now apply not_matches_one|].
  apply first_none.
Qed.

(** First match is a function of the name. *)
Lemma FirstMatch_functional (s : string) (rs : list Rule) (k1 k2 : string) :
  FirstMatch s rs k1 -> FirstMatch s rs k2 -> k1 = k2.
Proof.
  induction 1 as [| r rest Hm | r rest key Hn _ IH]; inversion 1; subst;
    try reflexivity; try contradiction.
  now apply IH.
Qed.

(** With no rule triggered the list is exhausted. *)
Lemma FirstMatch_no_keyword (s : string) (rs : list Rule) :
  (forall r, In r rs -> ~ matches s r) -> FirstMatch s rs "unknown".
Proof.
  induction rs as [|r rs IH]; intros H; [constructor|].
  apply first_later; [apply H; now left|].
  apply IH. intros r' Hr'. apply H. now right.
Qed.

Lemma plantType_unknown (s : string) : no_keyword s -> plantType s = "unknown".
Proof.
  intros H. eapply FirstMatch_functional; [apply plantType_first_match|].
  now apply FirstMatch_no_keyword.
Qed.

Lemma no_keywordb_spec (s : string) : no_keywordb s = true -> no_keyword s.
Proof.
  unfold no_keywordb, no_keyword. rewrite forallb_forall.
  intros H r Hr (kw & Hkw & Hc).
  specialize (H r Hr). apply negb_true_iff in H.
  assert (existsb (includes s) (fst r) = true) as Hex; [|congruence].
  apply existsb_exists. exists kw. split; [exact Hkw | now apply includes_spec].
Qed.

(** The keys [plantType] can produce. *)
Lemma plantType_range (s : string) :
  In (plantType s) ["mustard"; "peaceLily"; "rose"; "tulip"; "fern"; "cactus"; "unknown"].
Proof.
  unfold plantType.
  repeat match goal with |- context [if ?b then _ else _] => destruct b end;
    simpl; tauto.
Qed.

(** C1. For every file name, [identify] lower-cases the name and walks the
    ordered rule list of section 4.2 with first match winning: "mustard"
    gives mustard, else "peace" or "lily" gives peaceLily, else "rose",
    "tulip", "fern", "cactus" give their keys in that order, and a name that
    triggers no rule gives unknown. *)
Theorem identify_first_match (toLowerCase : string -> string) (fileName : string) :
  FirstMatch (toLowerCase fileName) rules (identify toLowerCase fileName) /\
  (forall key, FirstMatch (toLowerCase fileName) rules key ->
               key = identify toLowerCase fileName).
Proof.
  split; [apply plantType_first_match|].
  intros key H. eapply FirstMatch_functional; [exact H | apply plantType_first_match].
Qed.

Lemma identify_first_match_witness :
  FirstMatch (asciiLowerCase "My_ROSE.jpg") rules (identify asciiLowerCase "My_ROSE.jpg") /\
  "rose" = identify asciiLowerCase "My_ROSE.jpg".
Proof.
  split; [apply (proj1 (identify_first_match asciiLowerCase "My_ROSE.jpg"))|].
  apply (proj2 (identify_first_match asciiLowerCase "My_ROSE.jpg") "rose").
  apply first_later; [apply not_matches_one; reflexivity|].
  apply first_later; [apply not_matches_two; reflexivity|].
  apply (first_here _ (["rose"], "rose")).
  apply matches_one. reflexivity.
Defined.

(** ** The catalog *)

(** C5. For each of the six catalog keys the lookup returns a profile whose
    [isPoisonous] flag is the authored one: true for peaceLily and tulip,
    false for mustard, rose, fern and cactus. *)
Theorem lookup_isPoisonous :
  isPoisonous <$> plantDatabase !! "mustard" = Some false /\
  isPoisonous <$> plantDatabase !! "peaceLily" = Some true /\
  isPoisonous <$> plantDatabase !! "rose" = Some false /\
  isPoisonous <$> plantDatabase !! "tulip" = Some true /\
  isPoisonous <$> plantDatabase !! "fern" = Some false /\
  isPoisonous <$> plantDatabase !! "cactus" = Some false.
Proof. repeat split; vm_compute; reflexivity. Qed.

(** The catalog has exactly the six keys. *)
Lemma plantDatabase_keys (key : string) :
  is_Some (plantDatabase !! key) <->
  In key ["mustard"; "peaceLily"; "rose"; "tulip"; "fern"; "cactus"].
Proof.
  unfold plantDatabase. split.
  - intros [p Hp]. apply elem_of_list_to_map_2 in Hp.
    apply list_elem_of_In in Hp. simpl in Hp. simpl.
    intuition (try match goal with H : (_, _) = (_, _) |- _ => injection H as <- _ end; auto).
  - intros Hin. simpl in Hin.
    repeat (destruct Hin as [<-|Hin]; [eexists; vm_compute; reflexivity|]).
    destruct Hin.
Qed.

(** C9. Whenever [identify] returns a key other than "unknown", that key is
    a key of the catalog: the lookup made on it finds a profile, and the
    resumed request ends with that profile as its result. *)
Theorem identify_key_in_catalog (toLowerCase : string -> string) (fileName : string) :
  identify toLowerCase fileName <> "unknown" ->
  exists profile,
    plantDatabase !! identify toLowerCase fileName = Some profile /\
    forall w,
      completion (identifyPlant_resume (identify toLowerCase fileName)) w = Returned tt /\
      Resolved profile
        (state (exec (identifyPlant_resume (identify toLowerCase fileName)) w)).
Proof.
  intros Hne. unfold identify in *.
  assert (is_Some (plantDatabase !! plantType (toLowerCase fileName))) as [p Hp].
  { apply plantDatabase_keys. pose proof (plantType_range (toLowerCase fileName)) as H.
    simpl in *. intuition congruence. }
  exists p. split; [exact Hp|]. intros w.
  unfold identifyPlant_resume, completion, exec, try_finally, try_catch.
  destruct (String.eqb_spec (plantType (toLowerCase fileName)) "unknown") as [E|_];
    [contradiction|].
  rewrite Hp. split; [reflexivity | split; reflexivity].
Qed.

Lemma identify_key_in_catalog_witness :
  exists profile,
    plantDatabase !! identify asciiLowerCase "My_ROSE.jpg" = Some profile /\
    forall w,
      completion (identifyPlant_resume (identify asciiLowerCase "My_ROSE.jpg")) w = Returned tt /\
      Resolved profile
        (state (exec (identifyPlant_resume (identify asciiLowerCase "My_ROSE.jpg")) w)).
Proof.
  apply (identify_key_in_catalog asciiLowerCase "My_ROSE.jpg").
  vm_compute. discriminate.
Defined.

(** ** Starting and resuming an identification *)

Lemma run_reachable (toLowerCase : string -> string) (es : list Event) (w w' : World) :
  reachable toLowerCase w -> run toLowerCase es w = Some w' -> reachable toLowerCase w'.
Proof.
  revert w; induction es as [|e es IH]; intros w Hw Hrun; simpl in Hrun.
  - now injection Hrun as <-.
  - destruct (step toLowerCase e w) as [w1|] eqn:Hstep; [|discriminate].
    simpl in Hrun. eapply IH; [|exact Hrun].
    eapply reachable_step; eassumption.
Qed.

Lemma world_showing_rose_reachable : reachable asciiLowerCase world_showing_rose.
Proof.
  apply (run_reachable asciiLowerCase
           [ChangeFile (Some [rose_jpg]); TimerFired] initialWorld);
    [constructor | vm_compute; reflexivity].
Qed.

(** C3, as stated, fails: with the rose profile on display, starting the
    identification of "unknown_plant.png" leaves that profile in place. *)
Lemma identifyPlant_keeps_result :
  reachable asciiLowerCase world_showing_rose /\
  plantInfo (state (exec (identifyPlant asciiLowerCase unknown_png) world_showing_rose))
    = Some Catalog.rose /\
  ~ clears_result_and_error
      (state (exec (identifyPlant asciiLowerCase unknown_png) world_showing_rose)).
Proof.
  split; [apply world_showing_rose_reachable|].
  split; [reflexivity|].
  intros [H _]. vm_compute in H. discriminate.
Qed.

(** The resumed request always returns, whatever key it carries. *)
Lemma identifyPlant_resume_returns (key : string) (w : World) :
  completion (identifyPlant_resume key) w = Returned tt.
Proof.
  unfold identifyPlant_resume, completion, try_finally, try_catch.
  destruct (String.eqb key "unknown"); reflexivity.
Qed.

Lemma identifyPlant_resume_unknown (w : World) :
  Failed unidentifiedMessage (state (exec (identifyPlant_resume "unknown") w)).
Proof. repeat split. Qed.

(** C6. The identification step leaves the image preview alone, in
    particular when the request resolves to unknown: from its start to its
    resumption [identifyPlant] writes the loading, error and result cells
    only. *)
Theorem identifyPlant_frame (toLowerCase : string -> string) (file : File)
    (key : string) (w : World) :
  same_but_identification w (exec (identifyPlant toLowerCase file) w) /\
  same_but_identification w (exec (identifyPlant_resume key) w) /\
  selectedImage
    (state (exec (identifyPlant_resume "unknown") (exec (identifyPlant toLowerCase file) w)))
    = selectedImage (state w).
Proof.
  split; [repeat split|]. split; [|reflexivity].
  unfold identifyPlant_resume, exec, try_finally, try_catch.
  destruct (String.eqb key "unknown"); repeat split.
Qed.

(** ** The camera *)

Lemma forEach_stop_run (tracks : list nat) (w : World) :
  forEach_stop tracks w = (Returned tt, with_liveTracks (stopped tracks (liveTracks w)) w).
Proof.
  revert w; induction tracks as [|t rest IH]; intros w.
  - now destruct w.
  - simpl. unfold bind, stopTrack, modify. rewrite IH. now destruct w.
Qed.

Lemma stopCamera_run (w : World) :
  stopCamera w =
  (Returned tt,
   match videoRef w with
   | Some (mkVideo (Some stream)) =>
       exec (setIsStreaming false)
         (with_videoRef (Some (mkVideo None))
            (with_liveTracks (stopped (getTracks stream) (liveTracks w)) w))
   | _ => w
   end).
Proof.
  unfold stopCamera, bind, get.
  destruct (videoRef w) as [[[stream|]]|] eqn:Hv; try reflexivity.
  cbn [srcObject]. rewrite forEach_stop_run.
  unfold set_srcObject, modify, exec. cbn [videoRef with_liveTracks].
  rewrite Hv. reflexivity.
Qed.

(** C7. Calling [stopCamera] twice in a row gives the state one call gives,
    with or without a render in between, and a call made while no stream is
    attached changes nothing. *)
Theorem stopCamera_idempotent :
  (forall w, exec (stopCamera ;; stopCamera) w = exec stopCamera w) /\
  (forall w, commit (exec stopCamera (commit (exec stopCamera w)))
             = commit (exec stopCamera w)) /\
  (forall w, noActiveStream w ->
             exec stopCamera w = w /\ completion stopCamera w = Returned tt).
Proof.
  split; [|split].
  - intros w. unfold exec, bind. rewrite (stopCamera_run w).
    rewrite stopCamera_run.
    destruct w as [sess [[[stream|]]|] live al co cr fr fe tm]; reflexivity.
  - intros w. unfold exec. rewrite !stopCamera_run; simpl.
    destruct w as [[img ld str res err] [[[stream|]]|] live al co cr fr fe tm];
      destruct str; reflexivity.
  - intros w Hw. unfold exec, completion. rewrite stopCamera_run.
    destruct Hw as [->| ->]; split; reflexivity.
Qed.

Lemma stopCamera_idempotent_witness :
  exec stopCamera initialWorld = initialWorld /\
  completion stopCamera initialWorld = Returned tt.
Proof.
  apply (proj2 (proj2 stopCamera_idempotent) initialWorld).
  left. reflexivity.
Defined.

(** C8. When [startCamera] fails (the [getUserMedia] promise is rejected),
    it shows the alert, returns without an exception, and leaves every
    state cell, the video element and the tracks as they were; a session
    that was not streaming is not streaming afterwards. *)
Theorem startCamera_failure (toLowerCase : string -> string) (reason : string) (w : World) :
  completion (startCamera_resume (inr reason)) w = Returned tt /\
  exec (startCamera_resume (inr reason)) w
    = with_alerts (alerts w ++ [cameraMessage])%list
        (with_console (console w ++ [("Error accessing camera:", reason)])%list w) /\
  state (exec (startCamera_resume (inr reason)) w) = state w /\
  (isStreaming (state w) = false ->
   forall w', step toLowerCase (CameraSettled (inr reason)) w = Some w' ->
              isStreaming (state w') = false /\ state w' = state w /\
              videoRef w' = None /\ liveTracks w' = liveTracks w /\
              alerts w' = (alerts w ++ [cameraMessage])%list).
Proof.
  split; [reflexivity|]. split; [now destruct w|]. split; [reflexivity|].
  intros Hidle w' Hstep.
  unfold step, dispatch in Hstep.
  destruct (cameraRequests w); [discriminate|].
  injection Hstep as <-. unfold commit; simpl. rewrite Hidle.
  repeat split; assumption.
Qed.

Lemma startCamera_failure_witness :
  step asciiLowerCase (CameraSettled (inr "NotAllowedError"))
       (exec startCamera initialWorld) = Some world_camera_denied /\
  isStreaming (state world_camera_denied) = false /\
  state world_camera_denied = initialState /\
  videoRef world_camera_denied = None /\
  liveTracks world_camera_denied = [] /\
  alerts world_camera_denied = [cameraMessage].
Proof.
  split; [reflexivity|].
  apply (proj2 (proj2 (proj2
           (startCamera_failure asciiLowerCase "NotAllowedError"
              (exec startCamera initialWorld))))).
  - reflexivity.
  - reflexivity.
Defined.

(** ** The upload handler *)

(** C10. With no file selected (the file list is absent or empty) the
    upload handler changes nothing: no identification starts and loading,
    error, result and the preview keep their values. *)
Theorem handleImageUpload_no_file (toLowerCase : string -> string)
    (files : option (list File)) (w : World) :
  files = None \/ files = Some [] ->
  exec (handleImageUpload toLowerCase files) w = w /\
  completion (handleImageUpload toLowerCase files) w = Returned tt /\
  step toLowerCase (ChangeFile files) w = Some (commit w).
Proof. intros [-> | ->]; repeat split. Qed.

Lemma handleImageUpload_no_file_witness :
  exec (handleImageUpload asciiLowerCase (Some [])) world_showing_rose = world_showing_rose /\
  completion (handleImageUpload asciiLowerCase (Some [])) world_showing_rose = Returned tt /\
  step asciiLowerCase (ChangeFile (Some [])) world_showing_rose
    = Some (commit world_showing_rose).
Proof.
  apply (handleImageUpload_no_file asciiLowerCase (Some []) world_showing_rose).
  right. reflexivity.
Defined.

(** ** How one event moves the identification cells *)

Lemma commit_state (w : World) : state (commit w) = state w.
Proof. unfold commit. now destruct (isStreaming (state w)). Qed.

Lemma commit_identification (w : World) : identification (commit w) = identification w.
Proof. unfold commit. now destruct (isStreaming (state w)). Qed.

Lemma stopCamera_identification (w : World) :
  identification (exec stopCamera w) = identification w.
Proof.
  unfold exec. rewrite stopCamera_run.
  now destruct (videoRef w) as [[[stream|]]|].
Qed.

Lemma captureImage_identification (frame : option string) (w : World) :
  identification (exec (captureImage frame) w) = identification w.
Proof.
  unfold captureImage, exec, bind, get.
  destruct (videoRef w) as [video|] eqn:Hv; [|reflexivity].
  destruct frame as [url|]; [|reflexivity].
  cbn [setSelectedImage modify]. rewrite stopCamera_run.
  cbn [with_state videoRef]. rewrite Hv.
  now destruct video as [[stream|]].
Qed.

Lemma startCamera_resume_identification (settled : MediaStream + string) (w : World) :
  identification (exec (startCamera_resume settled) w) = identification w.
Proof.
  destruct settled as [stream|reason]; [|reflexivity].
  unfold startCamera_resume, exec, try_catch, bind, awaited, ret, get.
  now destruct (videoRef w) as [video|] eqn:Hv; cbn; rewrite ?Hv.
Qed.

(** An event leaves the identification cells alone, starts a request, or
    resumes the oldest suspended one. *)
Lemma step_identification (toLowerCase : string -> string) (e : Event) (w w' : World) :
  step toLowerCase e w = Some w' ->
  (isTimerFired e = false /\
   ((forall file, ~ requests e file) /\ identification w' = identification w \/
    exists file, requests e file /\
      identification w' =
        (true, None, plantInfo (state w),
         (timers w ++ [identify toLowerCase (file_name file)])%list)))
  \/
  (isTimerFired e = true /\
   exists key rest, timers w = key :: rest /\
     w' = commit (exec (identifyPlant_resume key) (with_timers rest w))).
Proof.
  unfold step. destruct (dispatch toLowerCase e w) as [w1|] eqn:Hd; [|discriminate].
  intros [= <-]. rewrite commit_identification.
  destruct e as [files|result|frame|settled| |ok| ]; simpl in Hd.
  - left. split; [reflexivity|].
    destruct files as [[|first more]|]; injection Hd as <-.
    + left. split; [intros file []|reflexivity].
    + right. exists first. split; reflexivity.
    + left. split; [intros file []|reflexivity].
  - left. split; [reflexivity|]. left. split; [intros file []|].
    destruct (fileReads w); [discriminate|]. now injection Hd as <-.
  - left. split; [reflexivity|]. left. split; [intros file []|].
    injection Hd as <-.
    destruct (isStreaming (state w)); [apply captureImage_identification|reflexivity].
  - left. split; [reflexivity|]. left. split; [intros file []|].
    destruct (cameraRequests w); [discriminate|]. injection Hd as <-.
    now rewrite startCamera_resume_identification.
  - left. split; [reflexivity|]. left. split; [intros file []|].
    destruct (isStreaming (state w)); [|discriminate]. injection Hd as <-.
    apply stopCamera_identification.
  - left. split; [reflexivity|].
    destruct (fetches w); [discriminate|]. injection Hd as <-.
    destruct ok.
    + right. eexists. split; reflexivity.
    + left. split; [intros file []|reflexivity].
  - right. split; [reflexivity|].
    destruct (timers w) as [|key rest]; [discriminate|]. injection Hd as <-.
    now exists key, rest.
Qed.

Lemma identifyPlant_resume_identification (key : string) (w : World) :
  identification (exec (identifyPlant_resume key) w) =
  (false,
   if String.eqb key "unknown" then Some unidentifiedMessage else error (state w),
   if String.eqb key "unknown" then None else plantDatabase !! key,
   timers w).
Proof.
  unfold identifyPlant_resume, exec, try_finally, try_catch.
  now destruct (String.eqb key "unknown").
Qed.

Lemma identification_eq (w' : World) b e p t :
  identification w' = (b, e, p, t) ->
  loading (state w') = b /\ error (state w') = e /\
  plantInfo (state w') = p /\ timers w' = t.
Proof. unfold identification. intros [= -> -> -> ->]. repeat split. Qed.

(** What one event does to the queue of suspended requests. *)
Lemma step_timers (toLowerCase : string -> string) (e : Event) (w w' : World) :
  step toLowerCase e w = Some w' ->
  (isTimerFired e = false /\ exists extra, timers w' = (timers w ++ extra)%list) \/
  (isTimerFired e = true /\ exists key, timers w = key :: timers w').
Proof.
  intros Hstep.
  destruct (step_identification _ _ _ _ Hstep)
    as [[Hk [[_ H]|(file & _ & H)]]|(Hk & key & rest & Hq & ->)];
    [left; split; [exact Hk|] .. | right; split; [exact Hk|]].
  - apply identification_eq in H as (_ & _ & _ & ->). exists []. now rewrite app_nil_r.
  - apply identification_eq in H as (_ & _ & _ & ->). eauto.
  - exists key. rewrite Hq. f_equal.
    pose proof (commit_identification
                  (exec (identifyPlant_resume key) (with_timers rest w))) as H.
    rewrite identifyPlant_resume_identification in H.
    now apply identification_eq in H as (_ & _ & _ & ->).
Qed.

(** ** Mutual exclusion of loading, error and result *)

Lemma reachable_loading_error (toLowerCase : string -> string) (w : World) :
  reachable toLowerCase w -> loading (state w) = true -> error (state w) = None.
Proof.
  induction 1 as [|e w w' Hw IH Hstep]; [reflexivity|].
  destruct (step_identification _ _ _ _ Hstep)
    as [[_ [[_ H]|(file & _ & H)]]|(_ & key & rest & _ & ->)].
  - apply identification_eq in H as (Hl & He & _). rewrite Hl, He. exact IH.
  - apply identification_eq in H as (_ & He & _). now rewrite He.
  - rewrite commit_state. intros Hl.
    pose proof (identifyPlant_resume_identification key (with_timers rest w)) as H.
    apply identification_eq in H as (Hl' & _). congruence.
Qed.

Lemma one_at_a_time_reachable (toLowerCase : string -> string) (w : World) :
  reachable_one_at_a_time toLowerCase w -> reachable toLowerCase w.
Proof. induction 1; [constructor | eapply reachable_step; eassumption]. Qed.

Lemma one_at_a_time_timers (toLowerCase : string -> string) (w : World) :
  reachable_one_at_a_time toLowerCase w -> length (timers w) <= 1.
Proof. destruct 1; [simpl; lia | assumption]. Qed.

(** While requests do not overlap, a pending request means no error is
    shown, and an error and a result are never shown together. *)
Lemma one_at_a_time_invariant (toLowerCase : string -> string) (w : World) :
  reachable_one_at_a_time toLowerCase w ->
  (timers w <> [] -> error (state w) = None) /\
  (error (state w) = None \/ plantInfo (state w) = None).
Proof.
  induction 1 as [|e w w' Hw [IHq IHx] Hstep Hlen]; [split; [reflexivity | now left]|].
  destruct (step_identification _ _ _ _ Hstep)
    as [[_ [[_ H]|(file & _ & H)]]|(_ & key & rest & Hq & ->)].
  - apply identification_eq in H as (_ & He & Hp & Ht). rewrite He, Hp, Ht. now split.
  - apply identification_eq in H as (_ & He & _). rewrite He. split; [reflexivity | now left].
  - pose proof (one_at_a_time_timers _ _ Hw) as Hone.
    pose proof (commit_identification
                  (exec (identifyPlant_resume key) (with_timers rest w))) as H.
    rewrite identifyPlant_resume_identification in H.
    apply identification_eq in H as (_ & He & Hp & Ht). rewrite He, Hp, Ht.
    rewrite Hq in Hone. destruct rest; [|simpl in Hone; lia].
    split; [intros Hne; now destruct Hne|].
    destruct (String.eqb key "unknown"); [now right|].
    left. simpl. apply IHq. now rewrite Hq.
Qed.

(** C2, as stated, fails.  After a rose has been identified the next upload
    turns loading on while the rose profile is still the result; and when
    two uploads overlap, the error of the first and the result of the
    second are both set once both timers have fired. *)
Lemma mutual_exclusion_fails :
  (exists w, run asciiLowerCase run_result_then_upload initialWorld = Some w /\
             reachable asciiLowerCase w /\
             loading (state w) = true /\ plantInfo (state w) = Some Catalog.rose /\
             ~ MutualExclusion (state w)) /\
  (exists w, run asciiLowerCase run_overlapping initialWorld = Some w /\
             reachable asciiLowerCase w /\
             error (state w) = Some unidentifiedMessage /\
             plantInfo (state w) = Some Catalog.rose /\
             ~ MutualExclusion (state w)).
Proof.
  split; eexists; (split; [vm_compute; reflexivity|]).
  - split; [apply (run_reachable asciiLowerCase run_result_then_upload initialWorld);
             [constructor | vm_compute; reflexivity]|].
    split; [reflexivity|]. split; [reflexivity|].
    intros [H _]. vm_compute in H. lia.
  - split; [apply (run_reachable asciiLowerCase run_overlapping initialWorld);
             [constructor | vm_compute; reflexivity]|].
    split; [reflexivity|]. split; [reflexivity|].
    intros [H _]. vm_compute in H. lia.
Qed.

(** C2, amended. In every state reachable by upload, scan, capture and
    close-camera actions and their completions, loading and an error are
    never on together; and as long as identification requests do not
    overlap (each is resumed before the next starts), a result and an error
    are never set together. *)
Theorem error_excludes_loading_and_result (toLowerCase : string -> string) :
  (forall w, reachable toLowerCase w ->
             ~ (loading (state w) = true /\ isSet (error (state w)) = true)) /\
  (forall w, reachable_one_at_a_time toLowerCase w ->
             ~ (isSet (plantInfo (state w)) = true /\ isSet (error (state w)) = true)).
Proof.
  split; intros w Hw [H1 H2].
  - rewrite (reachable_loading_error _ _ Hw H1) in H2. discriminate.
  - destruct (one_at_a_time_invariant _ _ Hw) as [_ [H|H]]; rewrite H in *; discriminate.
Qed.

Lemma world_failed_one_at_a_time : reachable_one_at_a_time asciiLowerCase world_failed.
Proof.
  apply (one_step asciiLowerCase TimerFired
           (mkWorld (mkSession None true false None None) None [] [] [] 0 1 0 ["unknown"])).
  - apply (one_step asciiLowerCase (ChangeFile (Some [unknown_png])) initialWorld).
    + constructor.
    + vm_compute. reflexivity.
    + simpl. lia.
  - vm_compute. reflexivity.
  - simpl. lia.
Defined.

Lemma error_excludes_loading_and_result_witness :
  ~ (loading (state world_failed) = true /\ isSet (error (state world_failed)) = true) /\
  ~ (isSet (plantInfo (state world_failed)) = true /\
     isSet (error (state world_failed)) = true).
Proof.
  split.
  - apply (proj1 (error_excludes_loading_and_result asciiLowerCase) world_failed).
    apply one_at_a_time_reachable. exact world_failed_one_at_a_time.
  - apply (proj2 (error_excludes_loading_and_result asciiLowerCase) world_failed).
    exact world_failed_one_at_a_time.
Defined.

(** ** An unrecognised file ends in [Failed] *)

Lemma run_app (toLowerCase : string -> string) (es1 es2 : list Event) (w : World) :
  run toLowerCase (es1 ++ es2) w = run toLowerCase es1 w ≫= run toLowerCase es2.
Proof.
  revert w; induction es1 as [|e es1 IH]; intros w; [reflexivity|].
  simpl. destruct (step toLowerCase e w) as [w1|]; [apply IH | reflexivity].
Qed.

Lemma timersFired_cons (e : Event) (es : list Event) :
  timersFired (e :: es) = if isTimerFired e then S (timersFired es) else timersFired es.
Proof. unfold timersFired. simpl. now destruct (isTimerFired e). Qed.

(** Timers fire oldest first: after a run that fires [n] of them, the
    queue is what was left of the old one behind its first [n] entries,
    followed by whatever was started meanwhile. *)
Lemma timers_after_run (toLowerCase : string -> string) (es : list Event) (w w' : World) :
  run toLowerCase es w = Some w' ->
  timersFired es <= length (timers w) ->
  exists started, timers w' = (drop (timersFired es) (timers w) ++ started)%list.
Proof.
  revert w; induction es as [|e es IH]; intros w Hrun Hn.
  - injection Hrun as <-. exists []. now rewrite drop_0, app_nil_r.
  - simpl in Hrun. destruct (step toLowerCase e w) as [w1|] eqn:Hstep; [|discriminate].
    simpl in Hrun. rewrite timersFired_cons in *.
    destruct (step_timers _ _ _ _ Hstep) as [[Hk [extra Hq]]|[Hk [key Hq]]];
      rewrite Hk in *.
    + destruct (IH w1 Hrun) as [started Hs].
      { rewrite Hq, length_app. lia. }
      exists (drop (timersFired es - length (timers w)) extra ++ started)%list.
      now rewrite Hs, Hq, drop_app, <- app_assoc.
    + rewrite Hq in *. simpl in Hn.
      destruct (IH w1 Hrun) as [started Hs]; [lia|].
      exists started. now rewrite Hs.
Qed.

(** While no timer fires, whatever else happens, loading stays on, the
    error stays cleared and the result stays what it was. *)
Lemma quiet_run (toLowerCase : string -> string) (es : list Event) (w1 w2 : World) :
  run toLowerCase es w1 = Some w2 ->
  timersFired es = 0 ->
  loading (state w1) = true ->
  error (state w1) = None ->
  loading (state w2) = true /\ error (state w2) = None /\
  plantInfo (state w2) = plantInfo (state w1).
Proof.
  revert w1; induction es as [|e es IH]; intros w1 Hrun Hn Hl He.
  - injection Hrun as <-. now repeat split.
  - simpl in Hrun. destruct (step toLowerCase e w1) as [w|] eqn:Hstep; [|discriminate].
    simpl in Hrun. rewrite timersFired_cons in Hn.
    destruct (isTimerFired e) eqn:Hk; [discriminate|].
    destruct (step_identification _ _ _ _ Hstep)
      as [[_ [[_ H]|(file & _ & H)]]|(Hk' & _)]; [| |congruence].
    + apply identification_eq in H as (Hl' & He' & Hp' & _).
      destruct (IH w Hrun Hn) as (Hl2 & He2 & Hp2); [congruence | congruence|].
      repeat split; congruence.
    + apply identification_eq in H as (Hl' & He' & Hp' & _).
      destruct (IH w Hrun Hn Hl' He') as (Hl2 & He2 & Hp2).
      repeat split; congruence.
Qed.

(** C3, amended. For every file and whatever the prior state, starting an
    identification request turns loading on and clears the prior error, and
    it does not clear the prior result: the start itself leaves the result
    as it was, and until a suspended request (this one or an older one) is
    resumed by its timer, whatever else happens, loading stays on, the
    error stays cleared, the result stays as it was and the request stays
    suspended. *)
Theorem identifyPlant_start (toLowerCase : string -> string) (file : File) (w : World) :
  completion (identifyPlant toLowerCase file) w = Returned tt /\
  loading (state (exec (identifyPlant toLowerCase file) w)) = true /\
  error (state (exec (identifyPlant toLowerCase file) w)) = None /\
  plantInfo (state (exec (identifyPlant toLowerCase file) w)) = plantInfo (state w) /\
  timers (exec (identifyPlant toLowerCase file) w)
    = (timers w ++ [identify toLowerCase (file_name file)])%list /\
  (forall e es w1 w2,
     requests e file ->
     step toLowerCase e w = Some w1 ->
     run toLowerCase es w1 = Some w2 ->
     timersFired es = 0 ->
     loading (state w2) = true /\
     error (state w2) = None /\
     plantInfo (state w2) = plantInfo (state w) /\
     exists started,
       timers w2
       = ((timers w ++ [identify toLowerCase (file_name file)]) ++ started)%list).
Proof.
  do 5 (split; [reflexivity|]).
  intros e es w1 w2 Hreq Hstep Hrun Hn.
  assert (identification w1
          = (true, None, plantInfo (state w),
             (timers w ++ [identify toLowerCase (file_name file)])%list)) as H.
  { destruct (step_identification _ _ _ _ Hstep)
      as [[_ [[Hnone _]|(file' & Hreq' & H)]]|(Hk & _)].
    - now destruct (Hnone file).
    - assert (file' = file) as ->; [|exact H].
      destruct e as [[[|first more]|]| | | | |[]| ]; simpl in *;
        try contradiction; congruence.
    - destruct e; try discriminate. destruct Hreq. }
  apply identification_eq in H as (Hl & He & Hp & Ht).
  destruct (quiet_run _ _ _ _ Hrun Hn Hl He) as (Hl2 & He2 & Hp2).
  split; [exact Hl2|]. split; [exact He2|]. split; [congruence|].
  destruct (timers_after_run _ _ _ _ Hrun) as [started Hq]; [lia|].
  exists started. now rewrite Hq, Hn, drop_0, Ht.
Qed.

Lemma identifyPlant_start_witness :
  loading (state world_rose_still_shown) = true /\
  error (state world_rose_still_shown) = None /\
  plantInfo (state world_rose_still_shown) = plantInfo (state world_showing_rose) /\
  exists started,
    timers world_rose_still_shown
    = ((timers world_showing_rose
          ++ [identify asciiLowerCase (file_name unknown_png)]) ++ started)%list.
Proof.
  apply (proj2 (proj2 (proj2 (proj2 (proj2
           (identifyPlant_start asciiLowerCase unknown_png world_showing_rose)))))
           (ChangeFile (Some [unknown_png]))
           [LoadEnd (Some "data:image/png;base64,")]
           (mkWorld (mkSession None true false (Some Catalog.rose) None)
                    None [] [] [] 0 2 0 ["unknown"])
           world_rose_still_shown).
  - reflexivity.
  - vm_compute. reflexivity.
  - vm_compute. reflexivity.
  - reflexivity.
Defined.

(** C4. For every file whose lower-cased name triggers none of the six
    rules (such as "unknown_plant.png"), and whatever else happens while the
    request is suspended, once the timers started before it have fired its
    own timer can fire, and the session is then [Failed]: the result is
    cleared, loading is off and the error is exactly "Unable to identify
    plant. Please ensure the image is clear and try again." *)
Theorem unknown_file_fails (toLowerCase : string -> string)
    (file : File) (e : Event) (es : list Event) (w w1 w2 : World) :
  no_keyword (toLowerCase (file_name file)) ->
  requests e file ->
  step toLowerCase e w = Some w1 ->
  run toLowerCase es w1 = Some w2 ->
  timersFired es = length (timers w) ->
  exists w3,
    step toLowerCase TimerFired w2 = Some w3 /\
    run toLowerCase (e :: es ++ [TimerFired]) w = Some w3 /\
    Failed unidentifiedMessage (state w3).
Proof.
  intros Hno Hreq Hstep Hrun Hn.
  assert (timers w1 = (timers w ++ ["unknown"])%list) as Hq1.
  { destruct (step_identification _ _ _ _ Hstep)
      as [[_ [[Hnone _]|(file' & Hreq' & H)]]|(Hk & _)].
    - now destruct (Hnone file).
    - apply identification_eq in H as (_ & _ & _ & ->).
      assert (file' = file) as ->.
      { destruct e as [[[|first more]|]| | | | |[]| ]; simpl in *;
          try contradiction; congruence. }
      unfold identify. now rewrite (plantType_unknown _ Hno).
    - destruct e; try discriminate. destruct Hreq. }
  destruct (timers_after_run _ _ _ _ Hrun) as [started Hq2].
  { rewrite Hq1, length_app. lia. }
  rewrite Hn, Hq1, drop_app_length in Hq2. simpl in Hq2.
  exists (commit (exec (identifyPlant_resume "unknown") (with_timers started w2))).
  assert (step toLowerCase TimerFired w2
          = Some (commit (exec (identifyPlant_resume "unknown") (with_timers started w2))))
    as Hfire.
  { unfold step, dispatch. now rewrite Hq2. }
  split; [exact Hfire|]. split.
  - simpl. rewrite Hstep. simpl. rewrite run_app, Hrun. simpl. now rewrite Hfire.
  - rewrite commit_state. apply identifyPlant_resume_unknown.
Qed.

Lemma unknown_file_fails_witness :
  exists w3,
    step asciiLowerCase TimerFired
      (mkWorld (mkSession (Some "data:image/png;base64,") true false None None)
               None [] [] [] 0 0 0 ["unknown"]) = Some w3 /\
    run asciiLowerCase
      (ChangeFile (Some [unknown_png])
         :: [LoadEnd (Some "data:image/png;base64,")] ++ [TimerFired])
      initialWorld = Some w3 /\
    Failed unidentifiedMessage (state w3).
Proof.
  apply (unknown_file_fails asciiLowerCase unknown_png
           (ChangeFile (Some [unknown_png]))
           [LoadEnd (Some "data:image/png;base64,")]
           initialWorld
           (mkWorld (mkSession None true false None None) None [] [] [] 0 1 0 ["unknown"])).
  - apply no_keywordb_spec. vm_compute. reflexivity.
  - reflexivity.
  - vm_compute. reflexivity.
  - vm_compute. reflexivity.
  - reflexivity.
Defined.

(** ** The camera never starts *)

(** The [video] element exists only while [isStreaming] holds, and
    [startCamera] turns [isStreaming] on only when the element exists: from
    the first render on, neither ever happens. *)
Lemma streaming_unreachable (toLowerCase : string -> string) (w : World) :
  reachable toLowerCase w -> isStreaming (state w) = false /\ videoRef w = None.
Proof.
  induction 1 as [|e w w' Hw [IHs IHv] Hstep]; [split; reflexivity|].
  unfold step in Hstep.
  destruct (dispatch toLowerCase e w) as [w1|] eqn:Hd; [|discriminate].
  injection Hstep as <-.
  assert (isStreaming (state w1) = false) as Hs1.
  { destruct e as [files|result|frame|settled| |ok| ]; simpl in Hd.
    - destruct files as [[|first more]|]; injection Hd as <-; exact IHs.
    - destruct (fileReads w); [discriminate|]. injection Hd as <-. exact IHs.
    - rewrite IHs in Hd. injection Hd as <-. exact IHs.
    - destruct (cameraRequests w); [discriminate|]. injection Hd as <-.
      destruct settled as [stream|reason]; [|exact IHs].
      unfold startCamera_resume, exec, try_catch, bind, awaited, ret, get.
      cbn [videoRef with_liveTracks with_cameraRequests]. rewrite IHv. exact IHs.
    - rewrite IHs in Hd. discriminate.
    - destruct (fetches w); [discriminate|]. injection Hd as <-.
      destruct ok; exact IHs.
    - destruct (timers w) as [|key rest]; [discriminate|]. injection Hd as <-.
      unfold identifyPlant_resume, exec, try_finally, try_catch.
      destruct (String.eqb key "unknown"); exact IHs. }
  unfold commit. rewrite Hs1. split; [exact Hs1 | reflexivity].
Qed.

(** * Further properties of the handlers *)

(** ** Releasing the camera *)

Lemma filter_keeps_all {A} (P : A -> Prop) `{forall x, Decision (P x)} (l : list A) :
  (forall x, x ∈ l -> P x) -> filter P l = l.
Proof.
  induction l as [|x l IH]; intros Hall; [reflexivity|].
  rewrite filter_cons_True; [|apply Hall; now left].
  f_equal. apply IH. intros y Hy. apply Hall. now right.
Qed.

Lemma filter_drops_all {A} (P : A -> Prop) `{forall x, Decision (P x)} (l : list A) :
  (forall x, x ∈ l -> ~ P x) -> filter P l = [].
Proof.
  induction l as [|x l IH]; intros Hall; [reflexivity|].
  rewrite filter_cons_False; [|apply Hall; now left].
  apply IH. intros y Hy. apply Hall. now right.
Qed.

Lemma stopped_filter (tracks live : list nat) :
  stopped tracks live = filter (fun t => t ∉ tracks) live.
Proof.
  revert live; induction tracks as [|t rest IH]; intros live; simpl.
  - symmetry. apply filter_keeps_all. intros x _. apply not_elem_of_nil.
  - rewrite IH, list_filter_filter. apply list_filter_iff.
    intros x. rewrite not_elem_of_cons. tauto.
Qed.

Lemma stopped_elem_of (tracks live : list nat) (t : nat) :
  t ∈ stopped tracks live <-> t ∈ live /\ t ∉ tracks.
Proof. rewrite stopped_filter, list_elem_of_filter. tauto. Qed.

Lemma stopped_fresh (tracks live : list nat) :
  (forall t, t ∈ tracks -> t ∉ live) -> stopped tracks (tracks ++ live) = live.
Proof.
  intros Hfresh. rewrite stopped_filter, filter_app.
  rewrite filter_drops_all; [|intros x Hx Hn; exact (Hn Hx)].
  apply filter_keeps_all. intros x Hx Hin. exact (Hfresh x Hin Hx).
Qed.

(** [stopCamera], called while a stream is attached, turns streaming off,
    detaches the stream and stops exactly its tracks: none of them stays
    live, every other live track does, and the preview and identification
    cells are not touched. *)
Theorem stopCamera_releases (stream : MediaStream) (w : World) :
  videoRef w = Some (mkVideo (Some stream)) ->
  completion stopCamera w = Returned tt /\
  isStreaming (state (exec stopCamera w)) = false /\
  videoRef (exec stopCamera w) = Some (mkVideo None) /\
  (forall t, t ∈ liveTracks (exec stopCamera w)
             <-> t ∈ liveTracks w /\ t ∉ getTracks stream) /\
  selectedImage (state (exec stopCamera w)) = selectedImage (state w) /\
  identification (exec stopCamera w) = identification w.
Proof.
  intros Hv. unfold completion, exec. rewrite stopCamera_run, Hv. simpl.
  split; [reflexivity|]. split; [reflexivity|]. split; [reflexivity|].
  split; [intros t; apply stopped_elem_of|]. split; reflexivity.
Qed.

Lemma stopCamera_releases_witness :
  completion stopCamera world_streaming = Returned tt /\
  isStreaming (state (exec stopCamera world_streaming)) = false /\
  videoRef (exec stopCamera world_streaming) = Some (mkVideo None) /\
  (forall t, t ∈ liveTracks (exec stopCamera world_streaming)
             <-> t ∈ liveTracks world_streaming /\ t ∉ [1; 2]) /\
  selectedImage (state (exec stopCamera world_streaming))
    = selectedImage (state world_streaming) /\
  identification (exec stopCamera world_streaming) = identification world_streaming.
Proof.
  apply (stopCamera_releases (mkStream [1; 2]) world_streaming).
  reflexivity.
Defined.

(** Acquire and release pair up when the video element is there: once a
    granted stream (whose tracks are new) has been attached by
    [startCamera], the Close Camera button gives back exactly the tracks
    that were live before, with streaming off and the element gone. *)
Theorem camera_round_trip (toLowerCase : string -> string)
    (video : HTMLVideoElement) (stream : MediaStream) (n : nat) (w : World) :
  videoRef w = Some video ->
  cameraRequests w = S n ->
  (forall t, t ∈ getTracks stream -> t ∉ liveTracks w) ->
  exists w1 w2,
    step toLowerCase (CameraSettled (inl stream)) w = Some w1 /\
    isStreaming (state w1) = true /\
    videoRef w1 = Some (mkVideo (Some stream)) /\
    liveTracks w1 = (getTracks stream ++ liveTracks w)%list /\
    step toLowerCase ClickClose w1 = Some w2 /\
    isStreaming (state w2) = false /\
    videoRef w2 = None /\
    liveTracks w2 = liveTracks w /\
    alerts w2 = alerts w /\
    identification w2 = identification w.
Proof.
  intros Hv Hn Hfresh.
  destruct w as [[img ld str res err] ref live al co cr fr fe tm].
  simpl in Hv, Hn, Hfresh. subst ref cr.
  eexists. eexists.
  split; [reflexivity|]. split; [reflexivity|]. split; [reflexivity|].
  split; [reflexivity|].
  unfold step, dispatch. cbn [state isStreaming exec commit fmap option_fmap option_map].
  simpl. unfold exec. rewrite stopCamera_run. simpl.
  rewrite (stopped_fresh _ _ Hfresh).
  repeat split.
Qed.

Lemma camera_round_trip_witness :
  exists w1 w2,
    step asciiLowerCase (CameraSettled (inl (mkStream [1; 2]))) world_video_ready = Some w1 /\
    isStreaming (state w1) = true /\
    videoRef w1 = Some (mkVideo (Some (mkStream [1; 2]))) /\
    liveTracks w1 = ([1; 2] ++ [7])%list /\
    step asciiLowerCase ClickClose w1 = Some w2 /\
    isStreaming (state w2) = false /\
    videoRef w2 = None /\
    liveTracks w2 = [7] /\
    alerts w2 = [] /\
    identification w2 = identification world_video_ready.
Proof.
  apply (camera_round_trip asciiLowerCase (mkVideo None) (mkStream [1; 2]) 0
           world_video_ready).
  - reflexivity.
  - reflexivity.
  - intros t Ht Hin. simpl in Ht, Hin.
    apply list_elem_of_In in Ht, Hin. simpl in Ht, Hin. lia.
Defined.

(** ** Capturing a frame *)

(** [captureImage] on a streaming camera: the frame becomes the preview,
    the camera is stopped (streaming off, stream detached, its tracks
    released), one [fetch] is left pending and no identification has
    started yet.  Without a 2d context, or without a video element, the
    handler changes nothing at all. *)
Theorem captureImage_effect (stream : MediaStream) (url : string) (w : World) :
  (videoRef w = Some (mkVideo (Some stream)) ->
   completion (captureImage (Some url)) w = Returned tt /\
   selectedImage (state (exec (captureImage (Some url)) w)) = Some url /\
   isStreaming (state (exec (captureImage (Some url)) w)) = false /\
   videoRef (exec (captureImage (Some url)) w) = Some (mkVideo None) /\
   liveTracks (exec (captureImage (Some url)) w)
     = stopped (getTracks stream) (liveTracks w) /\
   fetches (exec (captureImage (Some url)) w) = S (fetches w) /\
   identification (exec (captureImage (Some url)) w) = identification w) /\
  exec (captureImage None) w = w /\
  (videoRef w = None -> exec (captureImage (Some url)) w = w).
Proof.
  split; [|split].
  - intros Hv. unfold completion, exec, captureImage, bind, get. rewrite Hv.
    cbn [setSelectedImage modify]. rewrite stopCamera_run.
    cbn [with_state videoRef]. rewrite Hv. now destruct w.
  - unfold exec, captureImage, bind, get. now destruct (videoRef w).
  - intros Hv. unfold exec, captureImage, bind, get. now rewrite Hv.
Qed.

Lemma captureImage_effect_witness :
  completion (captureImage (Some "data:image/jpeg;base64,")) world_streaming = Returned tt /\
  selectedImage (state (exec (captureImage (Some "data:image/jpeg;base64,")) world_streaming))
    = Some "data:image/jpeg;base64," /\
  isStreaming (state (exec (captureImage (Some "data:image/jpeg;base64,")) world_streaming))
    = false /\
  videoRef (exec (captureImage (Some "data:image/jpeg;base64,")) world_streaming)
    = Some (mkVideo None) /\
  liveTracks (exec (captureImage (Some "data:image/jpeg;base64,")) world_streaming)
    = stopped [1; 2] [1; 2; 7] /\
  fetches (exec (captureImage (Some "data:image/jpeg;base64,")) world_streaming) = 1 /\
  identification (exec (captureImage (Some "data:image/jpeg;base64,")) world_streaming)
    = identification world_streaming.
Proof.
  apply (proj1 (captureImage_effect (mkStream [1; 2]) "data:image/jpeg;base64,"
                  world_streaming)).
  reflexivity.
Defined.

(** ** The camera from the first render on *)

(** In every reachable world the camera is off, no video element exists and
    no captured frame is waiting: clicking the scan button always runs
    [startCamera], and the Close Camera button is never there to click. *)
Theorem camera_never_streams (toLowerCase : string -> string) (w : World) :
  reachable toLowerCase w ->
  isStreaming (state w) = false /\ videoRef w = None /\ fetches w = 0 /\
  (forall frame, dispatch toLowerCase (ClickScan frame) w = Some (exec startCamera w)) /\
  step toLowerCase ClickClose w = None /\
  (forall ok, step toLowerCase (FetchSettled ok) w = None).
Proof.
  intros Hw.
  assert (isStreaming (state w) = false /\ videoRef w = None /\ fetches w = 0)
    as (Hs & Hv & Hf).
  { induction Hw as [|e w w' Hw (IHs & IHv & IHf) Hstep];
      [repeat split; reflexivity|].
    pose proof (streaming_unreachable _ _ (reachable_step _ _ _ _ Hw Hstep)) as [Hs Hv].
    split; [exact Hs|]. split; [exact Hv|].
    unfold step in Hstep.
    destruct (dispatch toLowerCase e w) as [w1|] eqn:Hd; [|discriminate].
    injection Hstep as <-.
    assert (fetches w1 = 0) as Hf1.
    { destruct e as [files|result|frame|settled| |ok| ]; simpl in Hd.
      - destruct files as [[|first more]|]; injection Hd as <-; exact IHf.
      - destruct (fileReads w); [discriminate|]. injection Hd as <-. exact IHf.
      - rewrite IHs in Hd. injection Hd as <-. exact IHf.
      - destruct (cameraRequests w); [discriminate|]. injection Hd as <-.
        destruct settled as [stream|reason]; [|exact IHf].
        unfold startCamera_resume, exec, try_catch, bind, awaited, ret, get.
        cbn [videoRef with_liveTracks with_cameraRequests]. rewrite IHv. exact IHf.
      - rewrite IHs in Hd. discriminate.
      - rewrite IHf in Hd. discriminate.
      - destruct (timers w) as [|key rest]; [discriminate|]. injection Hd as <-.
        unfold identifyPlant_resume, exec, try_finally, try_catch.
        destruct (String.eqb key "unknown"); exact IHf. }
    unfold commit. now destruct (isStreaming (state w1)). }
  split; [exact Hs|]. split; [exact Hv|]. split; [exact Hf|].
  split; [intros frame; simpl; now rewrite Hs|].
  split; [unfold step; simpl; now rewrite Hs|].
  intros ok. unfold step. simpl. now rewrite Hf.
Qed.

Lemma camera_never_streams_witness :
  isStreaming (state world_failed) = false /\ videoRef world_failed = None /\
  fetches world_failed = 0 /\
  (forall frame,
     dispatch asciiLowerCase (ClickScan frame) world_failed
       = Some (exec startCamera world_failed)) /\
  step asciiLowerCase ClickClose world_failed = None /\
  (forall ok, step asciiLowerCase (FetchSettled ok) world_failed = None).
Proof.
  apply (camera_never_streams asciiLowerCase world_failed).
  apply one_at_a_time_reachable. exact world_failed_one_at_a_time.
Defined.

(** A stream the user grants is never attached and never released: in a
    reachable world the granted stream's tracks are added to the live
    tracks while the state cells stay as they were and nothing is shown,
    and no other event changes the live tracks. *)
Theorem granted_stream_leaks (toLowerCase : string -> string)
    (e : Event) (w w' : World) :
  reachable toLowerCase w ->
  step toLowerCase e w = Some w' ->
  match e with
  | CameraSettled (inl stream) =>
      liveTracks w' = (getTracks stream ++ liveTracks w)%list /\
      state w' = state w /\ videoRef w' = None /\ alerts w' = alerts w
  | _ => liveTracks w' = liveTracks w
  end.
Proof.
  intros Hw Hstep.
  destruct (streaming_unreachable _ _ Hw) as [Hs Hv].
  unfold step in Hstep.
  destruct (dispatch toLowerCase e w) as [w1|] eqn:Hd; [|discriminate].
  injection Hstep as <-.
  assert (liveTracks (commit w1) = liveTracks w1) as Hc.
  { unfold commit. now destruct (isStreaming (state w1)). }
  assert (alerts (commit w1) = alerts w1) as Ha.
  { unfold commit. now destruct (isStreaming (state w1)). }
  destruct e as [files|result|frame|settled| |ok| ]; simpl in Hd.
  - rewrite Hc. destruct files as [[|first more]|]; now injection Hd as <-.
  - rewrite Hc. destruct (fileReads w); [discriminate|]. now injection Hd as <-.
  - rewrite Hc. rewrite Hs in Hd. now injection Hd as <-.
  - destruct (cameraRequests w); [discriminate|]. injection Hd as Hd.
    destruct settled as [stream|reason].
    + assert (w1 = with_liveTracks (getTracks stream ++ liveTracks w)%list
                     (with_cameraRequests n w)) as ->.
      { rewrite <- Hd.
        unfold startCamera_resume, exec, try_catch, bind, awaited, ret, get.
        cbn [videoRef with_liveTracks with_cameraRequests]. now rewrite Hv. }
      rewrite Hc, Ha, commit_state. unfold commit. simpl. rewrite Hs.
      now repeat split.
    + rewrite Hc. now subst w1.
  - rewrite Hs in Hd. discriminate.
  - rewrite Hc. destruct (fetches w); [discriminate|]. injection Hd as <-.
    now destruct ok.
  - rewrite Hc. destruct (timers w) as [|key rest]; [discriminate|]. injection Hd as <-.
    unfold identifyPlant_resume, exec, try_finally, try_catch.
    now destruct (String.eqb key "unknown").
Qed.

Lemma granted_stream_leaks_witness :
  liveTracks world_leaking = [1; 2] /\
  state world_leaking = initialState /\
  videoRef world_leaking = None /\
  alerts world_leaking = [].
Proof.
  apply (granted_stream_leaks asciiLowerCase (CameraSettled (inl (mkStream [1; 2])))
           (exec startCamera initialWorld) world_leaking).
  - apply (reachable_step asciiLowerCase (ClickScan None) initialWorld);
      [constructor | reflexivity].
  - reflexivity.
Defined.

(** ** Requests from start to resumption *)

(** A request event puts the key of its file at the back of the queue. *)
Lemma request_queued (toLowerCase : string -> string)
    (file : File) (e : Event) (w w1 : World) :
  requests e file ->
  step toLowerCase e w = Some w1 ->
  timers w1 = (timers w ++ [identify toLowerCase (file_name file)])%list.
Proof.
  intros Hreq Hstep.
  destruct (step_identification _ _ _ _ Hstep)
    as [[_ [[Hnone _]|(file' & Hreq' & H)]]|(Hk & _)].
  - now destruct (Hnone file).
  - apply identification_eq in H as (_ & _ & _ & ->).
    assert (file' = file) as ->; [|reflexivity].
    destruct e as [[[|first more]|]| | | | |[]| ]; simpl in *;
      try contradiction; congruence.
  - destruct e; try discriminate. destruct Hreq.
Qed.

(** Once the timers that were pending when it started have fired, a
    request is the oldest one and its own timer resumes it. *)
Lemma request_fires (toLowerCase : string -> string)
    (file : File) (e : Event) (es : list Event) (w w1 w2 : World) :
  requests e file ->
  step toLowerCase e w = Some w1 ->
  run toLowerCase es w1 = Some w2 ->
  timersFired es = length (timers w) ->
  exists started,
    step toLowerCase TimerFired w2
    = Some (commit (exec (identifyPlant_resume (identify toLowerCase (file_name file)))
                         (with_timers started w2))).
Proof.
  intros Hreq Hstep Hrun Hn.
  pose proof (request_queued _ _ _ _ _ Hreq Hstep) as Hq1.
  destruct (timers_after_run _ _ _ _ Hrun) as [started Hq2].
  { rewrite Hq1, length_app. lia. }
  rewrite Hn, Hq1, drop_app_length in Hq2. simpl in Hq2.
  exists started. unfold step, dispatch. now rewrite Hq2.
Qed.

(** A file whose name is recognised ends [Resolved]: whatever else happens
    while the request is suspended, once the earlier timers have fired its
    own timer can fire, and then the result is the catalog profile of its
    key and loading is off.  The error cell and the preview are not touched
    by that resumption. *)
Theorem known_file_resolves (toLowerCase : string -> string)
    (file : File) (e : Event) (es : list Event) (w w1 w2 : World) :
  identify toLowerCase (file_name file) <> "unknown" ->
  requests e file ->
  step toLowerCase e w = Some w1 ->
  run toLowerCase es w1 = Some w2 ->
  timersFired es = length (timers w) ->
  exists w3 profile,
    step toLowerCase TimerFired w2 = Some w3 /\
    plantDatabase !! identify toLowerCase (file_name file) = Some profile /\
    Resolved profile (state w3) /\
    error (state w3) = error (state w2) /\
    selectedImage (state w3) = selectedImage (state w2).
Proof.
  intros Hne Hreq Hstep Hrun Hn.
  destruct (request_fires _ _ _ _ _ _ _ Hreq Hstep Hrun Hn) as [started Hfire].
  assert (is_Some (plantDatabase !! identify toLowerCase (file_name file))) as [p Hp].
  { apply plantDatabase_keys.
    pose proof (plantType_range (toLowerCase (file_name file))) as H.
    unfold identify in *. simpl in *. intuition congruence. }
  eexists. exists p. split; [exact Hfire|]. split; [exact Hp|].
  rewrite commit_state.
  unfold identifyPlant_resume, exec, try_finally, try_catch.
  destruct (String.eqb_spec (identify toLowerCase (file_name file)) "unknown") as [E|_];
    [contradiction|].
  rewrite Hp. repeat split.
Qed.

Lemma known_file_resolves_witness :
  exists w3 profile,
    step asciiLowerCase TimerFired
      (mkWorld (mkSession (Some "data:image/jpeg;base64,") true false None None)
               None [] [] [] 0 0 0 ["rose"]) = Some w3 /\
    plantDatabase !! identify asciiLowerCase (file_name rose_jpg) = Some profile /\
    Resolved profile (state w3) /\
    error (state w3) = None /\
    selectedImage (state w3) = Some "data:image/jpeg;base64,".
Proof.
  apply (known_file_resolves asciiLowerCase rose_jpg
           (ChangeFile (Some [rose_jpg]))
           [LoadEnd (Some "data:image/jpeg;base64,")]
           initialWorld
           (mkWorld (mkSession None true false None None) None [] [] [] 0 1 0 ["rose"])).
  - vm_compute. discriminate.
  - reflexivity.
  - vm_compute. reflexivity.
  - vm_compute. reflexivity.
  - reflexivity.
Defined.

(** A captured frame is always named "capture.jpg", so with a lower-casing
    that leaves this name alone its identification can only fail: when the
    fetch of the frame arrives and the earlier timers have fired, the
    request's timer leaves the session [Failed]. *)
Theorem captured_frame_fails (toLowerCase : string -> string)
    (es : list Event) (w w1 w2 : World) :
  toLowerCase "capture.jpg" = "capture.jpg" ->
  step toLowerCase (FetchSettled true) w = Some w1 ->
  run toLowerCase es w1 = Some w2 ->
  timersFired es = length (timers w) ->
  exists w3,
    step toLowerCase TimerFired w2 = Some w3 /\
    Failed unidentifiedMessage (state w3).
Proof.
  intros Hlow Hstep Hrun Hn.
  destruct (request_fires toLowerCase (mkFile "capture.jpg" "image/jpeg")
              (FetchSettled true) es w w1 w2 eq_refl Hstep Hrun Hn) as [started Hfire].
  eexists. split; [exact Hfire|].
  rewrite commit_state. unfold identify. simpl. rewrite Hlow.
  apply identifyPlant_resume_unknown.
Qed.

Lemma captured_frame_fails_witness :
  exists w3,
    step asciiLowerCase TimerFired
      (mkWorld (mkSession (Some "data:image/jpeg;base64,") true false None None)
               None [] [] [] 0 0 0 ["unknown"]) = Some w3 /\
    Failed unidentifiedMessage (state w3).
Proof.
  apply (captured_frame_fails asciiLowerCase [] world_captured
           (mkWorld (mkSession (Some "data:image/jpeg;base64,") true false None None)
                    None [] [] [] 0 0 0 ["unknown"])).
  - reflexivity.
  - vm_compute. reflexivity.
  - reflexivity.
  - reflexivity.
Defined.

(** ** Resuming with any key *)

(** When two requests are resumed one after the other the later one decides
    the result, as if the earlier had not been there; but the error of an
    earlier unrecognised file stays beside the result of a later recognised
    one, because the success branch does not clear it. *)
Theorem later_request_wins (key1 key2 : string) (w : World) :
  plantInfo (state (exec (identifyPlant_resume key1 ;; identifyPlant_resume key2) w))
    = plantInfo (state (exec (identifyPlant_resume key2) w)) /\
  loading (state (exec (identifyPlant_resume key1 ;; identifyPlant_resume key2) w)) = false /\
  (key2 = "unknown" ->
   Failed unidentifiedMessage
     (state (exec (identifyPlant_resume key1 ;; identifyPlant_resume key2) w))) /\
  (key1 = "unknown" -> key2 <> "unknown" ->
   error (state (exec (identifyPlant_resume key1 ;; identifyPlant_resume key2) w))
     = Some unidentifiedMessage /\
   plantInfo (state (exec (identifyPlant_resume key1 ;; identifyPlant_resume key2) w))
     = plantDatabase !! key2).
Proof.
  unfold exec, bind, identifyPlant_resume, try_finally, try_catch.
  destruct (String.eqb_spec key1 "unknown") as [E1|E1];
    destruct (String.eqb_spec key2 "unknown") as [E2|E2]; simpl;
    repeat split; intros; try reflexivity; try contradiction; congruence.
Qed.

Lemma later_request_wins_witness :
  Failed unidentifiedMessage
    (state (exec (identifyPlant_resume "rose" ;; identifyPlant_resume "unknown")
                 initialWorld)) /\
  error (state (exec (identifyPlant_resume "unknown" ;; identifyPlant_resume "rose")
                     initialWorld))
    = Some unidentifiedMessage /\
  plantInfo (state (exec (identifyPlant_resume "unknown" ;; identifyPlant_resume "rose")
                         initialWorld))
    = plantDatabase !! "rose".
Proof.
  split.
  - apply (proj1 (proj2 (proj2 (later_request_wins "rose" "unknown" initialWorld)))).
    reflexivity.
  - apply (proj2 (proj2 (proj2 (later_request_wins "unknown" "rose" initialWorld)))).
    + reflexivity.
    + discriminate.
Defined.

(** ** What the cells can hold *)

(** Along any run the suspended requests carry keys the classifier can
    produce, the error is the one message for an unrecognised file, and the
    result is a profile of the catalog. *)
Lemma reachable_cells (toLowerCase : string -> string) (w : World) :
  reachable toLowerCase w ->
  Forall (fun key => In key catalogKeys \/ key = "unknown") (timers w) /\
  (error (state w) = None \/ error (state w) = Some unidentifiedMessage) /\
  (plantInfo (state w) = None \/
   exists key, In key catalogKeys /\ plantDatabase !! key = plantInfo (state w)).
Proof.
  induction 1 as [|e w w' Hw (IHq & IHe & IHp) Hstep].
  { split; [constructor|]. split; now left. }
  destruct (step_identification _ _ _ _ Hstep)
    as [[_ [[_ H]|(file & _ & H)]]|(_ & key & rest & Hq & ->)].
  - apply identification_eq in H as (_ & He & Hp & Ht). rewrite He, Hp, Ht. now repeat split.
  - apply identification_eq in H as (_ & He & Hp & Ht). rewrite He, Hp, Ht.
    split; [|split; [now left | exact IHp]].
    apply Forall_app. split; [exact IHq|]. constructor; [|constructor].
    pose proof (plantType_range (toLowerCase (file_name file))) as Hr.
    unfold identify, catalogKeys. simpl in *. intuition congruence.
  - pose proof (commit_identification
                  (exec (identifyPlant_resume key) (with_timers rest w))) as H.
    rewrite identifyPlant_resume_identification in H.
    apply identification_eq in H as (_ & He & Hp & Ht). rewrite He, Hp, Ht.
    rewrite Hq in IHq. apply Forall_cons in IHq as [Hkey IHrest].
    split; [exact IHrest|].
    destruct (String.eqb_spec key "unknown") as [E|E].
    + split; [now right | now left].
    + split; [exact IHe|]. right. exists key.
      split; [destruct Hkey as [Hk|Hk]; [exact Hk | contradiction] | reflexivity].
Qed.

(** Whatever profile is on display in a reachable world is one of the six
    catalog profiles, and whatever error is on display is the message for
    an unrecognised file: the generic message of the [catch] block of
    [identifyPlant] is never shown. *)
Theorem reachable_result_and_error (toLowerCase : string -> string) (w : World) :
  reachable toLowerCase w ->
  (forall profile, plantInfo (state w) = Some profile ->
     exists key, In key catalogKeys /\ plantDatabase !! key = Some profile) /\
  (forall msg, error (state w) = Some msg -> msg = unidentifiedMessage) /\
  error (state w) <> Some pipelineMessage.
Proof.
  intros Hw. destruct (reachable_cells _ _ Hw) as (_ & He & Hp).
  split; [|split].
  - intros profile Hs. destruct Hp as [Hp|(key & Hk & Hp)]; [congruence|].
    exists key. split; [exact Hk | congruence].
  - intros msg Hs. destruct He as [He|He]; congruence.
  - intros Hs. destruct He as [He|He]; rewrite He in Hs; discriminate.
Qed.

Lemma reachable_result_and_error_witness :
  (exists key, In key catalogKeys /\ plantDatabase !! key = Some Catalog.rose) /\
  unidentifiedMessage = unidentifiedMessage /\
  error (state world_failed) <> Some pipelineMessage.
Proof.
  split; [|split].
  - apply (proj1 (reachable_result_and_error asciiLowerCase world_showing_rose
                    world_showing_rose_reachable) Catalog.rose).
    reflexivity.
  - apply (proj1 (proj2 (reachable_result_and_error asciiLowerCase world_failed
                           (one_at_a_time_reachable _ _ world_failed_one_at_a_time)))
             unidentifiedMessage).
    reflexivity.
  - apply (proj2 (proj2 (reachable_result_and_error asciiLowerCase world_failed
                           (one_at_a_time_reachable _ _ world_failed_one_at_a_time)))).
Defined.

(** Loading is shown only while some request is suspended; and as long as
    requests do not overlap it is shown exactly then.  (With overlapping
    requests the first resumption turns loading off while the second
    request is still suspended.) *)
Theorem loading_while_pending (toLowerCase : string -> string) :
  (forall w, reachable toLowerCase w ->
             loading (state w) = true -> timers w <> []) /\
  (forall w, reachable_one_at_a_time toLowerCase w ->
             (loading (state w) = true <-> timers w <> [])).
Proof.
  assert (forall w, reachable toLowerCase w ->
                    loading (state w) = true -> timers w <> []) as Hany.
  { induction 1 as [|e w w' Hw IH Hstep]; [discriminate|].
    destruct (step_identification _ _ _ _ Hstep)
      as [[_ [[_ H]|(file & _ & H)]]|(_ & key & rest & Hq & ->)].
    - apply identification_eq in H as (Hl & _ & _ & Ht). now rewrite Hl, Ht.
    - apply identification_eq in H as (_ & _ & _ & Ht). rewrite Ht.
      intros _ Hnil. now apply app_eq_nil in Hnil as [_ Hnil].
    - rewrite commit_state. intros Hl.
      pose proof (identifyPlant_resume_identification key (with_timers rest w)) as H.
      apply identification_eq in H as (Hl' & _). congruence. }
  split; [exact Hany|].
  intros w Hw. split; [apply Hany; now apply one_at_a_time_reachable|].
  induction Hw as [|e w w' Hw IH Hstep Hlen]; [intros H; now destruct H|].
  destruct (step_identification _ _ _ _ Hstep)
    as [[_ [[_ H]|(file & _ & H)]]|(_ & key & rest & Hq & ->)].
  - apply identification_eq in H as (Hl & _ & _ & Ht). now rewrite Hl, Ht.
  - apply identification_eq in H as (Hl & _). now rewrite Hl.
  - pose proof (one_at_a_time_timers _ _ Hw) as Hone.
    pose proof (commit_identification
                  (exec (identifyPlant_resume key) (with_timers rest w))) as H.
    rewrite identifyPlant_resume_identification in H.
    apply identification_eq in H as (_ & _ & _ & Ht). rewrite Ht.
    rewrite Hq in Hone. destruct rest; [|simpl in Hone; lia].
    intros H. now destruct H.
Qed.

Lemma world_identifying_one_at_a_time :
  reachable_one_at_a_time asciiLowerCase world_identifying.
Proof.
  apply (one_step asciiLowerCase (ChangeFile (Some [unknown_png])) initialWorld).
  - constructor.
  - vm_compute. reflexivity.
  - simpl. lia.
Defined.

Lemma loading_while_pending_witness :
  timers world_identifying <> [] /\
  (loading (state world_identifying) = true <-> timers world_identifying <> []) /\
  (loading (state world_failed) = true <-> timers world_failed <> []).
Proof.
  split; [|split].
  - apply (proj1 (loading_while_pending asciiLowerCase) world_identifying).
    + apply one_at_a_time_reachable. exact world_identifying_one_at_a_time.
    + reflexivity.
  - apply (proj2 (loading_while_pending asciiLowerCase) world_identifying).
    exact world_identifying_one_at_a_time.
  - apply (proj2 (loading_while_pending asciiLowerCase) world_failed).
    exact world_failed_one_at_a_time.
Defined.

(** ** The preview and the identification are independent *)

(** The end of a file read and the firing of a timer commute: whichever
    comes first, the world afterwards is the same (and each is possible
    after the other exactly when it was possible before). *)
Theorem loadend_timer_commute (toLowerCase : string -> string)
    (result : option string) (w : World) :
  step toLowerCase (LoadEnd result) w ≫= step toLowerCase TimerFired
  = step toLowerCase TimerFired w ≫= step toLowerCase (LoadEnd result).
Proof.
  destruct w as [[img ld str res err] ref live al co cr fr fe tm].
  unfold step, dispatch.
  destruct fr as [|n], tm as [|key rest], str, ref.
  all: cbn [fileReads timers with_fileReads with_timers state videoRef liveTracks
            alerts console cameraRequests fetches option_fmap option_map fmap mbind
            option_bind].
  all: unfold identifyPlant_resume, onloadend, exec, try_finally, try_catch, commit.
  all: cbn [setSelectedImage setError setPlantInfo setLoading modify bind with_state
            with_fileReads with_timers state isStreaming snd fst fileReads timers
            videoRef liveTracks alerts console cameraRequests fetches
            selectedImage loading plantInfo error with_videoRef
            option_fmap option_map fmap mbind option_bind].
  all: try reflexivity.
  all: destruct (String.eqb key "unknown"); reflexivity.
Qed.

(** ** Longer names *)

Lemma append_assoc (a b c : string) : (a +:+ b) +:+ c = a +:+ (b +:+ c).
Proof.
  induction a as [|x a IH]; [reflexivity|].
  change (String x ((a +:+ b) +:+ c) = String x (a +:+ (b +:+ c))).
  now rewrite IH.
Qed.

Lemma contains_extend (pre s post kw : string) :
  contains s kw -> contains (pre +:+ s +:+ post) kw.
Proof.
  intros (a & b & ->). exists (pre +:+ a), (b +:+ post).
  now rewrite !append_assoc.
Qed.

Lemma includes_extend (pre s post kw : string) :
  includes s kw = true -> includes (pre +:+ s +:+ post) kw = true.
Proof. rewrite !includes_spec. apply contains_extend. Qed.

Lemma plantType_known (s : string) :
  plantType s <> "unknown" <-> existsb (includes s) keywords = true.
Proof.
  unfold plantType, keywords. simpl.
  destruct (includes s "mustard"), (includes s "peace"), (includes s "lily"),
    (includes s "rose"), (includes s "tulip"), (includes s "fern"),
    (includes s "cactus"); simpl; split; intros H; congruence.
Qed.

Lemma plantType_mustard (s : string) :
  plantType s = "mustard" <-> includes s "mustard" = true.
Proof.
  unfold plantType.
  destruct (includes s "mustard"), (includes s "peace"), (includes s "lily"),
    (includes s "rose"), (includes s "tulip"), (includes s "fern"),
    (includes s "cactus"); simpl; split; intros H; congruence.
Qed.

(** Putting text before or after a lower-cased name never loses a match: a
    name that was recognised stays recognised (possibly under an earlier
    rule), and a name classified as mustard stays mustard. *)
Theorem plantType_extend (pre s post : string) :
  (plantType s <> "unknown" -> plantType (pre +:+ s +:+ post) <> "unknown") /\
  (plantType s = "mustard" -> plantType (pre +:+ s +:+ post) = "mustard").
Proof.
  split.
  - rewrite !plantType_known, !existsb_exists.
    intros (kw & Hin & Hkw). exists kw. split; [exact Hin|].
    now apply includes_extend.
  - rewrite !plantType_mustard. apply includes_extend.
Qed.

Lemma plantType_extend_witness :
  plantType ("my_" +:+ "rose" +:+ ".jpg") <> "unknown" /\
  plantType ("rose_" +:+ "mustard" +:+ "_lily.png") = "mustard".
Proof.
  split.
  - apply (proj1 (plantType_extend "my_" "rose" ".jpg")). discriminate.
  - apply (proj2 (plantType_extend "rose_" "mustard" "_lily.png")). reflexivity.
Defined.

(** ** The page in a reachable world *)

Lemma catalog_poisonous (key : string) (p : PlantInfo) :
  In key catalogKeys ->
  plantDatabase !! key = Some p ->
  (isPoisonous p = true <-> key = "peaceLily" \/ key = "tulip").
Proof.
  unfold catalogKeys. simpl. intros Hin Hp.
  repeat (destruct Hin as [<-|Hin];
          [vm_compute in Hp; injection Hp as <-; simpl;
           split; [intros H; try discriminate H; auto
                  | intros [H|H]; try discriminate H; reflexivity]|]).
  destruct Hin.
Qed.

(** What [render] draws for the state of a reachable world: the scan button
    reads "Scan Plant" and the camera panel is absent; the preview is the
    selected image whenever it is a non-empty string; the error notice is
    the error cell itself; the loading notice and the error notice are
    never drawn together; and a profile panel is the rendering of a catalog
    profile, with the poison warning exactly for peaceLily and tulip. *)
Theorem reachable_view (toLowerCase : string -> string) (w : World) :
  reachable toLowerCase w ->
  scanLabel (render (state w)) = "Scan Plant" /\
  cameraPanel (render (state w)) = false /\
  previewImage (render (state w))
    = (if truthy (selectedImage (state w)) then selectedImage (state w) else None) /\
  errorNotice (render (state w)) = error (state w) /\
  ~ (loadingNotice (render (state w)) = true /\ errorNotice (render (state w)) <> None) /\
  (forall panel, profilePanel (render (state w)) = Some panel ->
     exists key profile,
       In key catalogKeys /\ plantDatabase !! key = Some profile /\
       panel = renderProfile profile /\
       (poisonWarning panel = true <-> key = "peaceLily" \/ key = "tulip")).
Proof.
  intros Hw.
  destruct (streaming_unreachable _ _ Hw) as [Hs _].
  destruct (reachable_cells _ _ Hw) as (_ & He & Hp).
  unfold render. cbn [scanLabel cameraPanel previewImage errorNotice loadingNotice
                      profilePanel]. rewrite Hs.
  split; [reflexivity|]. split; [reflexivity|].
  split; [now rewrite andb_true_r|].
  assert ((if truthy (error (state w)) then error (state w) else None) = error (state w))
    as Herr.
  { destruct He as [-> | ->]; reflexivity. }
  rewrite Herr. split; [reflexivity|]. split.
  - intros [Hl Hn]. apply Hn. exact (reachable_loading_error _ _ Hw Hl).
  - intros panel Hpanel.
    destruct (plantInfo (state w)) as [profile|] eqn:Hres; [|discriminate].
    injection Hpanel as <-.
    destruct Hp as [Hp|(key & Hk & Hp)]; [discriminate|].
    exists key, profile. split; [exact Hk|]. split; [exact Hp|]. split; [reflexivity|].
    now apply catalog_poisonous.
Qed.

Lemma reachable_view_witness :
  scanLabel (render (state world_showing_rose)) = "Scan Plant" /\
  cameraPanel (render (state world_showing_rose)) = false /\
  previewImage (render (state world_showing_rose)) = None /\
  errorNotice (render (state world_showing_rose)) = None /\
  ~ (loadingNotice (render (state world_showing_rose)) = true /\
     errorNotice (render (state world_showing_rose)) <> None) /\
  (forall panel, profilePanel (render (state world_showing_rose)) = Some panel ->
     exists key profile,
       In key catalogKeys /\ plantDatabase !! key = Some profile /\
       panel = renderProfile profile /\
       (poisonWarning panel = true <-> key = "peaceLily" \/ key = "tulip")).
Proof.
  apply (reachable_view asciiLowerCase world_showing_rose).
  exact world_showing_rose_reachable.
Defined.

(** ** Alerts *)

(** The only alert the page ever raises is the camera one, once per camera
    failure and each time with a [console.error] entry beside it: an
    identification that fails never raises an alert. *)
Theorem reachable_alerts (toLowerCase : string -> string) (w : World) :
  reachable toLowerCase w ->
  Forall (fun msg => msg = cameraMessage) (alerts w) /\
  Forall (fun entry => fst entry = "Error accessing camera:") (console w) /\
  length (console w) = length (alerts w).
Proof.
  induction 1 as [|e w w' Hw (IHa & IHc & IHn) Hstep];
    [repeat split; constructor|].
  destruct (streaming_unreachable _ _ Hw) as [Hs Hv].
  unfold step in Hstep.
  destruct (dispatch toLowerCase e w) as [w1|] eqn:Hd; [|discriminate].
  injection Hstep as <-.
  assert (alerts (commit w1) = alerts w1 /\ console (commit w1) = console w1) as [-> ->].
  { unfold commit. now destruct (isStreaming (state w1)). }
  destruct e as [files|result|frame|settled| |ok| ]; simpl in Hd.
  - destruct files as [[|first more]|]; injection Hd as <-; now repeat split.
  - destruct (fileReads w); [discriminate|]. injection Hd as <-. now repeat split.
  - rewrite Hs in Hd. injection Hd as <-. now repeat split.
  - destruct (cameraRequests w); [discriminate|]. injection Hd as <-.
    destruct settled as [stream|reason].
    + unfold startCamera_resume, exec, try_catch, bind, awaited, ret, get.
      cbn [videoRef with_liveTracks with_cameraRequests]. rewrite Hv.
      now repeat split.
    + cbn. split; [|split].
      * apply Forall_app. split; [exact IHa|]. now repeat constructor.
      * apply Forall_app. split; [exact IHc|]. now repeat constructor.
      * rewrite !length_app. simpl. lia.
  - rewrite Hs in Hd. discriminate.
  - destruct (fetches w); [discriminate|]. injection Hd as <-.
    destruct ok; now repeat split.
  - destruct (timers w) as [|key rest]; [discriminate|]. injection Hd as <-.
    unfold identifyPlant_resume, exec, try_finally, try_catch.
    destruct (String.eqb key "unknown"); now repeat split.
Qed.

Lemma reachable_alerts_witness :
  Forall (fun msg => msg = cameraMessage) (alerts world_camera_denied) /\
  Forall (fun entry => fst entry = "Error accessing camera:")
         (console world_camera_denied) /\
  length (console world_camera_denied) = length (alerts world_camera_denied).
Proof.
  apply (reachable_alerts asciiLowerCase world_camera_denied).
  apply (run_reachable asciiLowerCase
           [ClickScan None; CameraSettled (inr "NotAllowedError")] initialWorld).
  - constructor.
  - reflexivity.
Defined.
